(** * LsMaker: A4 composer (top text + centred barcode + label)

    A shallow embedding of [barcode_overlay_gui.py] and the properties
    its specification states about it.

    - [PyStr]: Python [str] values as lists of code points, with the
      built-ins the program calls ([strip], [splitlines], [re.sub] on a
      character class followed by [+]).
    - [sanitize_filename]: the name sanitizer.
    - [PyFloat]: the arithmetic the layout code is written against, with
      an IEEE binary64 instance (what CPython runs) and a rounded-rational
      instance (the standard model of floating-point arithmetic, with exact
      arithmetic and round-to-nearest on 53 bits as its two roundings).
    - [draw_base_a4_with_text_and_label], [compose_final_pdf],
      [create_pdf]: the renderer, the compositor and the GUI action, in an
      error-and-state monad over a file system. *)

From Stdlib Require Import ZArith NArith QArith Qabs Qround Qpower Lqa Lia.
From Stdlib Require Import List Bool.
From Stdlib Require Import Strings.String Strings.Ascii.
From Stdlib Require PrimFloat Uint63 FloatOps SpecFloat.
From stdpp Require Import base option list gmap.

Local Open Scope nat_scope.

(* ===================================================================== *)
(** ** Python strings *)
(* ===================================================================== *)

Module PyStr.

(** A Python [str] is a sequence of Unicode code points. *)
Definition char := N.
Definition str := list char.

(** An ASCII literal of the source as a [str]. *)
Definition lit (s : string) : str :=
  map N_of_ascii (list_ascii_of_string s).

(** [Py_UNICODE_ISSPACE]: the predicate behind both [str.strip()] and the
    regular-expression class [\s] on [str] patterns. *)
Definition isspace (c : char) : bool :=
  (((9 <=? c) && (c <=? 13)) || ((28 <=? c) && (c <=? 32))
   || (c =? 133) || (c =? 160) || (c =? 5760)
   || ((8192 <=? c) && (c <=? 8202))
   || (c =? 8232) || (c =? 8233) || (c =? 8239) || (c =? 8287)
   || (c =? 12288))%N.

(** [s.lstrip()], [s.rstrip()], [s.strip()] *)
Fixpoint lstrip (s : str) : str :=
  match s with
  | [] => []
  | c :: t => if isspace c then lstrip t else s
  end.

Definition rstrip (s : str) : str := rev (lstrip (rev s)).

Definition strip (s : str) : str := rstrip (lstrip s).

(** [re.sub(r'[cls]+', rep, s)]: every maximal run of characters of the
    class [cls] is replaced by one copy of [rep]. [in_run] records that the
    previous character belonged to the run being replaced. *)
Fixpoint re_sub_plus_from (cls : char -> bool) (rep : str) (in_run : bool)
    (s : str) : str :=
  match s with
  | [] => []
  | c :: t =>
      if cls c then
        if in_run then re_sub_plus_from cls rep true t
        else rep ++ re_sub_plus_from cls rep true t
      else c :: re_sub_plus_from cls rep false t
  end.

Definition re_sub_plus (cls : char -> bool) (rep : str) (s : str) : str :=
  re_sub_plus_from cls rep false s.

(** The line boundaries of [str.splitlines()]. *)
Definition CR : char := 13%N.
Definition LF : char := 10%N.

Definition is_linebreak (c : char) : bool :=
  ((c =? 10) || (c =? 13) || (c =? 11) || (c =? 12)
   || (c =? 28) || (c =? 29) || (c =? 30)
   || (c =? 133) || (c =? 8232) || (c =? 8233))%N.

(** [s.splitlines()]: [cur] is the line read so far (reversed) and
    [after_cr] tells that the previous character was a carriage return, so
    that a line feed that follows belongs to the same boundary. A trailing
    boundary opens no further line. *)
Fixpoint splitlines_from (cur : str) (after_cr : bool) (s : str) : list str :=
  match s with
  | [] => match cur with [] => [] | _ => [rev cur] end
  | c :: t =>
      if (c =? LF)%N && after_cr then splitlines_from cur false t
      else if is_linebreak c then rev cur :: splitlines_from [] (c =? CR)%N t
      else splitlines_from (c :: cur) false t
  end.

Definition splitlines (s : str) : list str := splitlines_from [] false s.

End PyStr.

Import PyStr.

(* ===================================================================== *)
(** ** The name sanitizer *)
(* ===================================================================== *)

(** The character class [[\\/:"*?<>|]] of the sanitizer's first pattern,
    by code point:  \ / : " * ? < > |  *)
Definition forbidden_set : list char :=
  [92; 47; 58; 34; 42; 63; 60; 62; 124]%N.

Definition forbidden (c : char) : bool :=
  existsb (N.eqb c) forbidden_set.

Definition sanitize_filename (name : str) : str :=
  let name := strip name in
  let name := re_sub_plus forbidden (lit "-") name in
  let name := strip (re_sub_plus isspace (lit " ") name) in
  match name with
  | [] => lit "output"
  | _ => firstn 120 name
  end.

(* ===================================================================== *)
(** ** Arithmetic *)
(* ===================================================================== *)

(** The numeric operations the layout code uses on Python [float]s:
    conversion of an [int], a float literal of the source, [-], [*], [/],
    [<] and the test [== 0] behind [ZeroDivisionError]. *)
Class PyFloat (F : Type) := {
  of_int : Z -> F;
  of_lit : Q -> F;
  fsub : F -> F -> F;
  fmul : F -> F -> F;
  fdiv : F -> F -> F;
  flt : F -> F -> bool;
  fis_zero : F -> bool;
}.

(** Python exceptions the program can meet, and the outcome of a call. *)
Inductive exn :=
  | ZeroDivisionError
  | IndexError
  | FileNotFoundError (p : str)
  | IsADirectoryError (p : str)
  | PdfError (code : N)
  | OSError (code : N).

Inductive result (A : Type) :=
  | OK (a : A)
  | Raise (e : exn).
Arguments OK {A} a.
Arguments Raise {A} e.

(* ===================================================================== *)
(** ** Pages and the platform *)
(* ===================================================================== *)

Section Documents.

Context {F : Type}.

(** [Transformation().scale(s).translate(tx, ty)] as the sequence of its
    builder calls. *)
Inductive xform :=
  | Scale (s : F)
  | Translate (tx ty : F).

Definition Transformation := list xform.

(** What a page's content stream draws, in drawing order: the canvas calls
    of the renderer, filled shapes (the bars of a source graphic) and
    content placed under a transformation by a merge. *)
#[warnings="-register-all"]
Inductive op :=
  | SetFont (name : str) (size : Z)
  | DrawString (x y : F) (text : str)
  | DrawCentredString (x y : F) (text : str)
  | FillRect (x y w h : F)
  | Placed (t : Transformation) (content : list op).

Record page := Page {
  mediabox : F * F;          (* width, height *)
  contents : list op;
}.

End Documents.

Arguments xform F : clear implicits.
Arguments Transformation F : clear implicits.
Arguments op F : clear implicits.
Arguments page F : clear implicits.

(** Everything the program calls that is not in its source file: reportlab
    (page size, word wrap, the canvas serialiser), pypdf (reader, merge,
    writer), pathlib and the operating system. [open_fault] and
    [write_fault] are the ways in which opening and writing the output file
    can fail; a write fault also tells what it leaves in the file. *)
Record Platform (F : Type) := {
  Bytes : Type;
  no_bytes : Bytes;
  A4 : F * F;
  simpleSplit : str -> str -> Z -> F -> list str;
  canvas_save : F * F -> list (op F) -> Bytes;
  PdfReader : Bytes -> result (list (page F));
  merge_transformed_page :
    page F -> page F -> Transformation F -> result (page F);
  PdfWriter_write : list (page F) -> Bytes;
  decode_utf8_replace : Bytes -> str;
  path_parent : str -> str;
  path_join : str -> str -> str;
  open_fault : gmap str Bytes -> str -> option exn;
  write_fault : gmap str Bytes -> str -> Bytes -> option (exn * Bytes);
}.

Arguments Bytes {F} _.
Arguments no_bytes {F} _.
Arguments A4 {F} _.
Arguments simpleSplit {F} _.
Arguments canvas_save {F} _.
Arguments PdfReader {F} _.
Arguments merge_transformed_page {F} _.
Arguments PdfWriter_write {F} _.
Arguments decode_utf8_replace {F} _.
Arguments path_parent {F} _.
Arguments path_join {F} _.
Arguments open_fault {F} _.
Arguments write_fault {F} _.

(** The file system: regular files with their contents, and directories. *)
Record world {F : Type} (L : Platform F) := World {
  files : gmap str (Bytes L);
  dirs : gset str;
}.
Arguments World {F L} _ _.
Arguments files {F L} _.
Arguments dirs {F L} _.

(** Computations that read and change the file system and may raise. State
    changes made before an exception is raised stay. *)
Definition M {F : Type} (L : Platform F) (A : Type) : Type :=
  world L -> result A * world L.

Definition ret {F} {L : Platform F} {A} (a : A) : M L A :=
  fun w => (OK a, w).

Definition raise {F} {L : Platform F} {A} (e : exn) : M L A :=
  fun w => (Raise e, w).

Definition bind {F} {L : Platform F} {A B} (m : M L A) (k : A -> M L B)
  : M L B :=
  fun w =>
    match m w with
    | (OK a, w') => k a w'
    | (Raise e, w') => (Raise e, w')
    end.

Definition lift {F} {L : Platform F} {A} (r : result A) : M L A :=
  fun w => (r, w).

Notation "'let*' x := m 'in' k" := (bind m (fun x => k))
  (at level 10, x name, m at level 100, k at level 200).
Notation "'let*' ' pat := m 'in' k" :=
  (bind m (fun x => match x with pat => k end))
  (at level 10, pat pattern, m at level 100, k at level 200).

(* ===================================================================== *)
(** ** The program *)
(* ===================================================================== *)

Section Program.

Context {F : Type} `{PyFloat F} (L : Platform F).

Definition PAGE_W : F := fst (A4 L).
Definition PAGE_H : F := snd (A4 L).
Definition MARGIN : Z := 36.
Definition BARCODE_TARGET_W : F := of_lit 360.
Definition GAP_BARCODE_LABEL : F := of_lit 14.
Definition TOP_TEXT_FONT : str * Z := (lit "Helvetica", 10%Z).
Definition LABEL_FONT : str * Z := (lit "Helvetica", 12%Z).

(** *** draw_base_a4_with_text_and_label *)

(** The first loop of the renderer: every paragraph of the text is wrapped
    on its own; an empty text is one empty paragraph, an empty paragraph is
    wrapped as a single space, and a paragraph that wraps to nothing still
    gives one empty line. *)
Definition wrapped_lines (top_text : str) : list str :=
  let '(font_name, font_size) := TOP_TEXT_FONT in
  let available_width := fsub PAGE_W (of_int (2 * MARGIN)) in
  let paragraphs :=
    match splitlines top_text with [] => [ [] ] | ps => ps end in
  flat_map
    (fun paragraph =>
       let lines :=
         simpleSplit L
           (match paragraph with [] => lit " " | _ => paragraph end)
           font_name font_size available_width in
       match lines with [] => [ [] ] | _ => lines end)
    paragraphs.

(** The second loop: one [drawString] per line, from [y_text] downwards,
    until the next baseline would lie below the margin. *)
Fixpoint draw_lines (line_height : F) (y_text : F) (lines : list str)
  : list (op F) :=
  match lines with
  | [] => []
  | line :: rest =>
      if flt (fsub y_text line_height) (of_int MARGIN) then []
      else
        DrawString (of_int MARGIN) (fsub y_text line_height) line
        :: draw_lines line_height (fsub y_text line_height) rest
  end.

(** The calls made on the canvas up to [showPage], with the placement
    [(x, y)] of the graphic. *)
Definition draw_base_canvas (top_text label_text : str)
    (barcode_w_pt barcode_h_pt : F) : list (op F) * (F * F) :=
  let x := fdiv (fsub PAGE_W barcode_w_pt) (of_lit 2) in
  let y := fdiv (fsub PAGE_H barcode_h_pt) (of_lit 2) in
  let label_x_center := fdiv PAGE_W (of_lit 2) in
  let label_y := fsub y GAP_BARCODE_LABEL in
  let '(font_name, font_size) := TOP_TEXT_FONT in
  let line_height := fmul (of_int font_size) (of_lit (13 # 10)) in
  let y_text := fsub PAGE_H (of_int MARGIN) in
  ([SetFont font_name font_size]
   ++ draw_lines line_height y_text (wrapped_lines top_text)
   ++ [SetFont (fst LABEL_FONT) (snd LABEL_FONT);
       DrawCentredString label_x_center label_y label_text],
   (x, y)).

Definition draw_base_a4_with_text_and_label (top_text label_text : str)
    (barcode_w_pt barcode_h_pt : F) : Bytes L * (F * F) :=
  let '(c, xy) :=
    draw_base_canvas top_text label_text barcode_w_pt barcode_h_pt in
  (canvas_save L (A4 L) c, xy).

(** *** compose_final_pdf *)

(** [a / b] on floats *)
Definition truediv (a b : F) : result F :=
  if fis_zero b then Raise ZeroDivisionError else OK (fdiv a b).

(** [pages[0]] *)
Definition first_page (pages : list (page F)) : result (page F) :=
  match pages with
  | [] => Raise IndexError
  | p :: _ => OK p
  end.

(** Reading the bytes of a file. *)
Definition read_bytes (p : str) : M L (Bytes L) :=
  fun w =>
    match files w !! p with
    | Some b => (OK b, w)
    | None =>
        if bool_decide (p ∈ dirs w) then (Raise (IsADirectoryError p), w)
        else (Raise (FileNotFoundError p), w)
    end.

(** [path.read_text(encoding="utf-8", errors="replace")] *)
Definition read_text (p : str) : M L str :=
  let* b := read_bytes p in
  ret (decode_utf8_replace L b).

(** [open(p, "wb")]: the file exists and is empty once the call returns. *)
Definition open_wb (p : str) : M L unit :=
  fun w =>
    match open_fault L (files w) p with
    | Some e => (Raise e, w)
    | None => (OK tt, World (<[p := no_bytes L]> (files w)) (dirs w))
    end.

(** [writer.write(f)] followed by the close of [f] at the end of the
    [with] block. *)
Definition write_close (p : str) (data : Bytes L) : M L unit :=
  fun w =>
    match write_fault L (files w) p data with
    | Some (e, rest) => (Raise e, World (<[p := rest]> (files w)) (dirs w))
    | None => (OK tt, World (<[p := data]> (files w)) (dirs w))
    end.

(** Lines 81 to 84: the scale and the placed size, [(scale, barcode_w_pt,
    barcode_h_pt)]. *)
Definition scale_to_target (bc_w bc_h : F) : result (F * F * F) :=
  match truediv BARCODE_TARGET_W bc_w with
  | Raise e => Raise e
  | OK scale => OK (scale, fmul bc_w scale, fmul bc_h scale)
  end.

(** The path of the output file. *)
Definition output_path (barcode_pdf_path label_text : str)
    (out_dir : option str) : str :=
  let out_name := sanitize_filename label_text ++ lit ".pdf" in
  let target_dir :=
    match out_dir with
    | Some d => d
    | None => path_parent L barcode_pdf_path
    end in
  path_join L target_dir out_name.

Definition compose_final_pdf (barcode_pdf_path txt_path label_text : str)
    (out_dir : option str) : M L str :=
  let* top_text := read_text txt_path in
  let* bc_bytes := read_bytes barcode_pdf_path in
  let* bc_reader := lift (PdfReader L bc_bytes) in
  let* bc_page := lift (first_page bc_reader) in
  let bc_w := fst (mediabox bc_page) in
  let bc_h := snd (mediabox bc_page) in
  let* '(scale, barcode_w_pt, barcode_h_pt) :=
    lift (scale_to_target bc_w bc_h) in
  let '(base_bytes, (x, y)) :=
    draw_base_a4_with_text_and_label top_text label_text
      barcode_w_pt barcode_h_pt in
  let* base_reader := lift (PdfReader L base_bytes) in
  let* base_page := lift (first_page base_reader) in
  let t := [Scale scale; Translate x y] in
  let* base_page := lift (merge_transformed_page L base_page bc_page t) in
  let writer := [base_page] in
  let out_path := output_path barcode_pdf_path label_text out_dir in
  let* _ := open_wb out_path in
  let* _ := write_close out_path (PdfWriter_write L writer) in
  ret out_path.

(** *** App.create_pdf *)

(** The entry fields of the window. *)
Record App := {
  src_pdf : str;
  txt_file : str;
  out_dir_var : str;
  label_var : str;
}.

(** What the action shows: one of the three validation messages, the
    failure message with the exception, or the success message. *)
Inductive dialog :=
  | ErrInvalidPdf
  | ErrInvalidTxt
  | ErrLabelRequired
  | ErrFailed (e : exn)
  | InfoCreated (out_path : str).

(** [Path(p).exists()] *)
Definition path_exists (w : world L) (p : str) : bool :=
  bool_decide (is_Some (files w !! p)) || bool_decide (p ∈ dirs w).

Definition is_empty (s : str) : bool :=
  match s with [] => true | _ => false end.

Definition create_pdf (app : App) (w : world L) : dialog * world L :=
  let src := strip (src_pdf app) in
  let txt := strip (txt_file app) in
  let label := strip (label_var app) in
  if is_empty src || negb (path_exists w src) then (ErrInvalidPdf, w)
  else if is_empty txt || negb (path_exists w txt) then (ErrInvalidTxt, w)
  else if is_empty label then (ErrLabelRequired, w)
  else
    let out_dir :=
      if is_empty (strip (out_dir_var app)) then None
      else Some (strip (out_dir_var app)) in
    match compose_final_pdf src txt label out_dir w with
    | (OK out_path, w') => (InfoCreated out_path, w')
    | (Raise e, w') => (ErrFailed e, w')
    end.

End Program.

(* ===================================================================== *)
(** ** Two arithmetics *)
(* ===================================================================== *)

(** IEEE 754 binary64, the arithmetic of CPython's [float]. An [int] of the
    program and the numerator and denominator of a literal are small
    enough to convert exactly, so the correctly rounded quotient is the
    value the literal denotes. *)
Module B64.

Definition of_Z (z : Z) : PrimFloat.float :=
  match z with
  | Z0 => PrimFloat.zero
  | Zpos _ => PrimFloat.of_uint63 (Uint63.of_Z z)
  | Zneg p => PrimFloat.opp (PrimFloat.of_uint63 (Uint63.of_Z (Zpos p)))
  end.

Definition of_Q (q : Q) : PrimFloat.float :=
  PrimFloat.div (of_Z (Qnum q)) (of_Z (Zpos (Qden q))).

(** The rational a finite float stands for. *)
Definition to_Q (f : PrimFloat.float) : Q :=
  match FloatOps.Prim2SF f with
  | SpecFloat.S754_finite s m e =>
      ((if s then -1 else 1) * inject_Z (Zpos m) * 2 ^ e)%Q
  | _ => 0%Q
  end.

#[export] Instance binary64 : PyFloat PrimFloat.float := {|
  of_int := of_Z;
  of_lit := of_Q;
  fsub := PrimFloat.sub;
  fmul := PrimFloat.mul;
  fdiv := PrimFloat.div;
  flt := PrimFloat.ltb;
  fis_zero := fun x => PrimFloat.eqb x PrimFloat.zero;
|}.

End B64.

Import B64.

(** Rounded arithmetic on the rationals: every operation returns the exact
    result passed through [rnd]. This is the standard model of
    floating-point arithmetic; it leaves overflow, underflow and the
    special values out. *)
Record rounding := Rounding {
  rnd : Q -> Q;
  eps : Q;
}.

Definition rounded (r : rounding) : PyFloat Q := {|
  of_int := inject_Z;
  of_lit := rnd r;
  fsub := fun a b => rnd r (a - b);
  fmul := fun a b => rnd r (a * b);
  fdiv := fun a b => rnd r (a / b);
  flt := fun a b => negb (Qle_bool b a);
  fis_zero := fun a => Qeq_bool a 0;
|}.

(** The laws of the model: the relative error of a rounding is at most
    [eps], and the integers up to 2^53 are represented exactly. *)
Record standard_model (r : rounding) : Prop := {
  eps_nonneg : (0 <= eps r)%Q;
  rnd_error : forall q : Q, (Qabs (rnd r q - q) <= eps r * Qabs q)%Q;
  rnd_int :
    forall z : Z, (Z.abs z <= 2 ^ 53)%Z -> (rnd r (inject_Z z) == inject_Z z)%Q;
}.

(** Exact arithmetic is the model with no rounding error. *)
Definition exact : rounding := Rounding (fun q => q) 0.

(** Round to nearest, ties to even, with 53 significant bits and an
    unbounded exponent. *)
Definition pow2 (e : Z) : Q := (2 ^ e)%Q.

Definition round_half_even (m : Q) : Z :=
  let f := Qfloor m in
  match (m - inject_Z f ?= 1 # 2)%Q with
  | Lt => f
  | Gt => (f + 1)%Z
  | Eq => if Z.even f then f else (f + 1)%Z
  end.

(** The exponent [e] with [2^e <= q < 2^(e+1)], for a positive [q]. *)
Definition binade (q : Q) : Z :=
  let e0 := (Z.log2 (Qnum q) - Z.log2 (Zpos (Qden q)))%Z in
  if Qle_bool (pow2 e0) q then e0 else (e0 - 1)%Z.

Definition round53_pos (q : Q) : Q :=
  let ulp := pow2 (binade q - 52) in
  (inject_Z (round_half_even (q / ulp)) * ulp)%Q.

Definition round53 (q : Q) : Q :=
  match Qnum q with
  | Z0 => 0%Q
  | Zpos _ => round53_pos q
  | Zneg _ => (- round53_pos (- q))%Q
  end.

Definition binary53 : rounding := Rounding round53 (pow2 (-53)).

(** *** reportlab's page size

    [reportlab.lib.units] has [inch = 72.0], [cm = inch / 2.54],
    [mm = cm * 0.1], and [reportlab.lib.pagesizes] has
    [A4 = (210*mm, 297*mm)]. *)
Section Reportlab.

Context {F : Type} `{PyFloat F}.

Definition inch : F := of_lit 72.
Definition cm : F := fdiv inch (of_lit (254 # 100)).
Definition mm : F := fmul cm (of_lit (1 # 10)).
Definition reportlab_A4 : F * F :=
  (fmul (of_int 210) mm, fmul (of_int 297) mm).

End Reportlab.

(* ===================================================================== *)
(** ** A simulated platform *)
(* ===================================================================== *)

(** A platform to run the program on: file contents are kept as the value
    they encode, the font is so narrow that no line ever wraps, a merge
    appends the placed content to the receiving page, paths are POSIX
    paths, and the disk is either healthy or full. *)
Section Sim.

Context {F : Type} `{PyFloat F}.

Inductive blob :=
  | TextBlob (s : str)
  | PdfBlob (pages : list (page F))
  | Cut (written : N).

(** [s.split()] and [' '.join(ws)] *)
Fixpoint split_ws_from (cur : str) (s : str) : list str :=
  match s with
  | [] => match cur with [] => [] | _ => [rev cur] end
  | c :: t =>
      if isspace c then
        match cur with
        | [] => split_ws_from [] t
        | _ => rev cur :: split_ws_from [] t
        end
      else split_ws_from (c :: cur) t
  end.

Fixpoint join_sp (ws : list str) : str :=
  match ws with
  | [] => []
  | [w] => w
  | w :: rest => w ++ lit " " ++ join_sp rest
  end.

Definition sim_simpleSplit (text font_name : str) (font_size : Z)
    (max_width : F) : list str :=
  match split_ws_from [] text with
  | [] => []
  | ws => [join_sp ws]
  end.

Fixpoint drop_to_slash (r : str) : str :=
  match r with
  | [] => []
  | c :: t => if (c =? 47)%N then t else drop_to_slash t
  end.

Definition sim_parent (p : str) : str := rev (drop_to_slash (rev p)).

Definition sim_join (d n : str) : str := d ++ lit "/" ++ n.

Definition sim (disk_full : bool) : Platform F := {|
  Bytes := blob;
  no_bytes := Cut 0;
  A4 := reportlab_A4;
  simpleSplit := sim_simpleSplit;
  canvas_save := fun size c => PdfBlob [Page size c];
  PdfReader := fun b =>
    match b with
    | PdfBlob pages => OK pages
    | _ => Raise (PdfError 0)
    end;
  merge_transformed_page := fun base p t =>
    OK (Page (mediabox base) (contents base ++ [Placed t (contents p)]));
  PdfWriter_write := fun pages => PdfBlob pages;
  decode_utf8_replace := fun b =>
    match b with
    | TextBlob s => s
    | _ => []
    end;
  path_parent := sim_parent;
  path_join := sim_join;
  open_fault := fun _ _ => None;
  write_fault := fun _ _ _ =>
    if disk_full then Some (OSError 28, Cut 0) else None;
|}.

(** The scenario of the specification: a source page of 200 by 80 points,
    two lines of text, the label [Lot 42]. *)
Definition lot42_text : str := lit "Lot 42" ++ [LF] ++ lit "Exp 2025-01-01".

Definition lot42_source : page F :=
  Page (of_int 200, of_int 80)
       [FillRect (of_int 0) (of_int 0) (of_int 2) (of_int 80)].

Definition lot42_world (disk_full : bool) : world (sim disk_full) :=
  World (<[lit "/in/bc.pdf" := PdfBlob [lot42_source]]>
           (<[lit "/in/top.txt" := TextBlob lot42_text]> ∅))
        {[ lit "/in" ]}.

End Sim.

Arguments blob F : clear implicits.

(* ===================================================================== *)
(** * Properties *)
(* ===================================================================== *)

Example sanitize_spec_example :
  sanitize_filename (lit "A/B:C*D  ") = lit "A-B-C-D".
Proof. reflexivity. Qed.

Example sanitize_blank : sanitize_filename (lit "   ") = lit "output".
Proof. reflexivity. Qed.

Example splitlines_examples :
  splitlines (lit "") = []
  /\ splitlines [LF] = [ [] ]
  /\ splitlines (lit "a" ++ [LF; LF] ++ lit "b") = [lit "a"; []; lit "b"]
  /\ splitlines (lit "a" ++ [CR; LF] ++ lit "b" ++ [LF]) = [lit "a"; lit "b"].
Proof. repeat split. Qed.

(* ===================================================================== *)
(** ** Facts about the string built-ins *)
(* ===================================================================== *)

Section StrFacts.

Implicit Types (s t u : str) (c : char).

(** [lstrip] removes a prefix of white space and stops at the first other
    character. *)
Lemma lstrip_split s :
  exists u, s = u ++ lstrip s /\ Forall (fun c => isspace c = true) u.
Proof.
  induction s as [|c s [u [Hs Hu]]]; simpl.
  - exists []. split; [reflexivity | constructor].
  - destruct (isspace c) eqn:Hc.
    + exists (c :: u). split; [simpl; congruence | constructor; assumption].
    + exists []. split; [reflexivity | constructor].
Qed.

Lemma lstrip_head s c : head (lstrip s) = Some c -> isspace c = false.
Proof.
  induction s as [|d s IH]; simpl; [discriminate |].
  destruct (isspace d) eqn:Hd; [exact IH |].
  simpl. intros [= <-]. exact Hd.
Qed.

Lemma lstrip_id s :
  (forall c, head s = Some c -> isspace c = false) -> lstrip s = s.
Proof.
  destruct s as [|d s]; simpl; [reflexivity |].
  intros H. rewrite (H d eq_refl). reflexivity.
Qed.

Lemma rstrip_split s :
  exists u, s = rstrip s ++ u /\ Forall (fun c => isspace c = true) u.
Proof.
  unfold rstrip. destruct (lstrip_split (rev s)) as [u [Hs Hu]].
  exists (rev u). split.
  - rewrite <- rev_app_distr, <- Hs, rev_involutive. reflexivity.
  - apply List.Forall_rev. exact Hu.
Qed.

Lemma head_rev_last s : head (rev s) = last s.
Proof.
  induction s as [|d s IH] using rev_ind; [reflexivity |].
  rewrite rev_app_distr, last_snoc. reflexivity.
Qed.

Lemma rstrip_last s c : last (rstrip s) = Some c -> isspace c = false.
Proof.
  unfold rstrip. rewrite <- head_rev_last, rev_involutive. apply lstrip_head.
Qed.

Lemma rstrip_id s :
  (forall c, last s = Some c -> isspace c = false) -> rstrip s = s.
Proof.
  intros H. unfold rstrip. rewrite lstrip_id.
  - apply rev_involutive.
  - intros c. rewrite head_rev_last. apply H.
Qed.

(** A string that starts with a non-space character keeps that start under
    [rstrip]. *)
Lemma rstrip_cons_nonspace c s :
  isspace c = false -> exists t, rstrip (c :: s) = c :: t.
Proof.
  intros Hc. destruct (rstrip_split (c :: s)) as [u [Hs Hu]].
  destruct (rstrip (c :: s)) as [|d t] eqn:E.
  - simpl in Hs. subst u. inversion Hu; congruence.
  - simpl in Hs. injection Hs as <- _. exists t. reflexivity.
Qed.

Lemma strip_head s c : head (strip s) = Some c -> isspace c = false.
Proof.
  unfold strip. intros H.
  destruct (rstrip_split (lstrip s)) as [u [Hs _]].
  apply (lstrip_head s). rewrite Hs.
  destruct (rstrip (lstrip s)); [discriminate | exact H].
Qed.

Lemma strip_last s c : last (strip s) = Some c -> isspace c = false.
Proof. apply rstrip_last. Qed.

Lemma strip_id s :
  (forall c, head s = Some c -> isspace c = false) ->
  (forall c, last s = Some c -> isspace c = false) ->
  strip s = s.
Proof.
  intros Hh Hl. unfold strip. rewrite (lstrip_id s Hh). apply rstrip_id, Hl.
Qed.

(** [strip s] is a contiguous part of [s]. *)
Lemma strip_split s : exists u v, s = u ++ strip s ++ v.
Proof.
  destruct (lstrip_split s) as [u [Hu _]].
  destruct (rstrip_split (lstrip s)) as [v [Hv _]].
  exists u, v. unfold strip. rewrite <- Hv. exact Hu.
Qed.

Lemma strip_Forall (P : char -> Prop) s : Forall P s -> Forall P (strip s).
Proof.
  intros H. destruct (strip_split s) as [u [v E]]. rewrite E in H.
  apply Forall_app in H as [_ H]. apply Forall_app in H as [H _]. exact H.
Qed.

End StrFacts.

(* ===================================================================== *)
(** ** The sanitizer *)
(* ===================================================================== *)

(** White space in [s] is made of single spaces (code point 32) that do
    not touch; [prev] tells that a space stands just before [s]. *)
Fixpoint spaces_single_from (prev : bool) (s : str) : Prop :=
  match s with
  | [] => True
  | c :: t =>
      if isspace c then c = 32%N /\ prev = false /\ spaces_single_from true t
      else spaces_single_from false t
  end.

Definition allowed (c : char) : Prop := forbidden c = false.

(** The failing label: 119 letters, a space, one more letter. *)
Definition long_label : str := repeat 97%N 119 ++ lit " b".

Section SanitizerFacts.

Implicit Types (s t u : str) (c : char).

Lemma spaces_single_weaken b s :
  spaces_single_from b s -> spaces_single_from false s.
Proof.
  destruct s as [|c s]; simpl; [trivial |].
  destruct (isspace c); [| trivial]. intros (? & ? & ?). auto.
Qed.

Lemma spaces_single_app_l b s u :
  spaces_single_from b (s ++ u) -> spaces_single_from b s.
Proof.
  revert b. induction s as [|c s IH]; intros b; simpl; [trivial |].
  destruct (isspace c).
  - intros (? & ? & ?). eauto.
  - apply IH.
Qed.

Lemma spaces_single_app_r b u s :
  spaces_single_from b (u ++ s) -> spaces_single_from false s.
Proof.
  revert b. induction u as [|c u IH]; intros b; simpl.
  - apply spaces_single_weaken.
  - destruct (isspace c).
    + intros (_ & _ & Hs). eapply IH, Hs.
    + apply IH.
Qed.

Lemma spaces_single_strip s :
  spaces_single_from false s -> spaces_single_from false (strip s).
Proof.
  intros Hs. destruct (strip_split s) as [u [v E]]. rewrite E in Hs.
  apply spaces_single_app_r in Hs. eapply spaces_single_app_l, Hs.
Qed.

Lemma spaces_single_space b s c :
  spaces_single_from b s -> c ∈ s -> isspace c = true -> c = 32%N.
Proof.
  revert b. induction s as [|d s IH]; intros b Hs Hin Hc.
  - inversion Hin.
  - simpl in Hs. apply elem_of_cons in Hin as [-> | Hin].
    + rewrite Hc in Hs. tauto.
    + destruct (isspace d); [destruct Hs as (_ & _ & Hs) |]; eapply IH; eauto.
Qed.

(** The second substitution leaves single spaces only. *)
Lemma re_sub_space_single prev in_run s :
  (prev = true -> in_run = true) ->
  spaces_single_from prev (re_sub_plus_from isspace (lit " ") in_run s).
Proof.
  revert prev in_run. induction s as [|c s IH]; intros prev in_run Hp; simpl.
  - trivial.
  - destruct (isspace c) eqn:Hc.
    + destruct in_run.
      * apply IH. trivial.
      * simpl. repeat split.
        -- destruct prev; [discriminate (Hp eq_refl) | reflexivity].
        -- apply IH. trivial.
    + simpl. rewrite Hc. apply IH. discriminate.
Qed.

(** ... and changes nothing where that already holds. *)
Lemma re_sub_space_fixed b s :
  spaces_single_from b s -> re_sub_plus_from isspace (lit " ") b s = s.
Proof.
  revert b. induction s as [|c s IH]; intros b; simpl; [trivial |].
  destruct (isspace c).
  - intros (-> & -> & Hs). simpl. f_equal. apply IH, Hs.
  - intros Hs. f_equal. apply IH, Hs.
Qed.

Lemma re_sub_space_Forall (P : char -> Prop) b s :
  P 32%N -> Forall P s ->
  Forall P (re_sub_plus_from isspace (lit " ") b s).
Proof.
  intros H32 Hs. revert b. induction Hs as [|c s Hc Hs IH]; intros b; simpl.
  - constructor.
  - destruct (isspace c).
    + destruct b; [apply IH |]. simpl. constructor; [exact H32 | apply IH].
    + constructor; [exact Hc | apply IH].
Qed.

(** The first substitution leaves no forbidden character. *)
Lemma re_sub_forbidden_allowed b s :
  Forall allowed (re_sub_plus_from forbidden (lit "-") b s).
Proof.
  revert b. induction s as [|c s IH]; intros b; simpl.
  - constructor.
  - destruct (forbidden c) eqn:Hc.
    + destruct b; [apply IH |]. simpl. constructor; [reflexivity | apply IH].
    + constructor; [exact Hc | apply IH].
Qed.

Lemma re_sub_forbidden_fixed b s :
  Forall allowed s -> re_sub_plus_from forbidden (lit "-") b s = s.
Proof.
  intros Hs. revert b. induction Hs as [|c s Hc Hs IH]; intros b; simpl.
  - reflexivity.
  - rewrite Hc. f_equal. apply IH.
Qed.

(** The string that [sanitize_filename] truncates. *)
Definition cleaned (name : str) : str :=
  strip (re_sub_plus isspace (lit " ")
           (re_sub_plus forbidden (lit "-") (strip name))).

Lemma sanitize_filename_cleaned name :
  sanitize_filename name =
  match cleaned name with
  | [] => lit "output"
  | _ => firstn 120 (cleaned name)
  end.
Proof. reflexivity. Qed.

Lemma cleaned_allowed name : Forall allowed (cleaned name).
Proof.
  unfold cleaned, re_sub_plus. apply strip_Forall.
  apply re_sub_space_Forall; [reflexivity |]. apply re_sub_forbidden_allowed.
Qed.

Lemma cleaned_single name : spaces_single_from false (cleaned name).
Proof.
  unfold cleaned, re_sub_plus. apply spaces_single_strip.
  apply re_sub_space_single. discriminate.
Qed.

(** What holds of every result: the length, the forbidden set, the start. *)
Lemma sanitize_filename_length name :
  1 <= length (sanitize_filename name) <= 120.
Proof.
  rewrite sanitize_filename_cleaned. destruct (cleaned name) as [|c t].
  - simpl. lia.
  - rewrite length_firstn. simpl length. lia.
Qed.

Lemma sanitize_filename_allowed name :
  Forall allowed (sanitize_filename name).
Proof.
  rewrite sanitize_filename_cleaned.
  pose proof (cleaned_allowed name) as Ha.
  destruct (cleaned name) as [|c t] eqn:E.
  - repeat constructor.
  - rewrite <- (firstn_skipn 120 (c :: t)) in Ha.
    apply Forall_app in Ha as [Ha _]. exact Ha.
Qed.

Lemma sanitize_filename_no_forbidden name c :
  c ∈ sanitize_filename name -> c ∉ forbidden_set.
Proof.
  intros Hin Hf.
  pose proof (sanitize_filename_allowed name) as Ha.
  rewrite Forall_forall in Ha. specialize (Ha c Hin).
  unfold allowed, forbidden in Ha.
  assert (existsb (N.eqb c) forbidden_set = true) as Ht.
  { apply existsb_exists. exists c. split.
    - apply list_elem_of_In, Hf.
    - apply N.eqb_refl. }
  congruence.
Qed.

Lemma sanitize_filename_head name c :
  head (sanitize_filename name) = Some c -> isspace c = false.
Proof.
  rewrite sanitize_filename_cleaned.
  pose proof (strip_head (re_sub_plus isspace (lit " ")
    (re_sub_plus forbidden (lit "-") (strip name)))) as Hh.
  fold (cleaned name) in Hh.
  destruct (cleaned name) as [|d t].
  - simpl. intros [= <-]. reflexivity.
  - simpl. intros [= <-]. apply Hh. reflexivity.
Qed.

(** A result ends in white space only when it was cut, and then in one
    space. *)
Lemma sanitize_filename_last_space name c :
  last (sanitize_filename name) = Some c -> isspace c = true ->
  c = 32%N /\ length (sanitize_filename name) = 120
  /\ 120 < length (cleaned name).
Proof.
  rewrite sanitize_filename_cleaned.
  pose proof (strip_last (re_sub_plus isspace (lit " ")
    (re_sub_plus forbidden (lit "-") (strip name)))) as Hl.
  fold (cleaned name) in Hl.
  pose proof (cleaned_single name) as Hs.
  destruct (cleaned name) as [|d t] eqn:E.
  - vm_compute. intros [= <-]. discriminate.
  - intros Hlast Hc.
    destruct (le_lt_dec (length (d :: t)) 120) as [Hle | Hgt].
    + rewrite firstn_all2 in Hlast by exact Hle.
      rewrite (Hl c Hlast) in Hc. discriminate.
    + split; [| split; [| exact Hgt]].
      * rewrite <- (firstn_skipn 120 (d :: t)) in Hs.
        apply spaces_single_app_l in Hs.
        eapply spaces_single_space; [exact Hs | | exact Hc].
        apply last_Some in Hlast as [l' ->]. set_solver.
      * rewrite length_firstn. lia.
Qed.

(** Sanitizing a result strips it on the right and changes nothing else. *)
Lemma sanitize_filename_twice name :
  sanitize_filename (sanitize_filename name)
  = rstrip (sanitize_filename name).
Proof.
  pose proof (sanitize_filename_length name) as Hlen.
  pose proof (sanitize_filename_allowed name) as Ha.
  pose proof (sanitize_filename_head name) as Hh.
  assert (spaces_single_from false (sanitize_filename name)) as Hs.
  { rewrite sanitize_filename_cleaned.
    pose proof (cleaned_single name) as Hs.
    destruct (cleaned name) as [|d t] eqn:E.
    - vm_compute. tauto.
    - rewrite <- (firstn_skipn 120 (d :: t)) in Hs.
      eapply spaces_single_app_l, Hs. }
  set (r := sanitize_filename name) in *.
  destruct r as [|d r'] eqn:Er; [simpl in Hlen; lia |].
  assert (isspace d = false) as Hd by (apply Hh; reflexivity).
  destruct (rstrip_cons_nonspace d r' Hd) as [t Et].
  destruct (rstrip_split (d :: r')) as [u [Eu _]].
  assert (Forall allowed (rstrip (d :: r'))) as Ha'.
  { rewrite Eu in Ha. apply Forall_app in Ha as [Ha _]. exact Ha. }
  assert (spaces_single_from false (rstrip (d :: r'))) as Hs'.
  { rewrite Eu in Hs. eapply spaces_single_app_l, Hs. }
  assert (length (rstrip (d :: r')) <= 120) as Hlen'.
  { rewrite Eu in Hlen. rewrite length_app in Hlen. lia. }
  unfold sanitize_filename at 1.
  assert (strip (d :: r') = rstrip (d :: r')) as ->.
  { unfold strip. rewrite lstrip_id; [reflexivity |].
    simpl. intros c [= <-]. exact Hd. }
  unfold re_sub_plus.
  rewrite (re_sub_forbidden_fixed false _ Ha').
  rewrite (re_sub_space_fixed false _ Hs').
  rewrite strip_id.
  - rewrite Et. rewrite <- Et. apply firstn_all2. exact Hlen'.
  - rewrite Et. simpl. intros c [= <-]. exact Hd.
  - apply rstrip_last.
Qed.

(** Hence the sanitizer is idempotent at every input whose result does not
    end in a space. *)
Lemma sanitize_filename_idempotent_uncut name :
  (forall c, last (sanitize_filename name) = Some c -> isspace c = false) ->
  sanitize_filename (sanitize_filename name) = sanitize_filename name.
Proof.
  intros H. rewrite sanitize_filename_twice. apply rstrip_id, H.
Qed.

End SanitizerFacts.

(** C2 (trailing white space after truncation). The sanitizer strips its
    result before it truncates it to 120 characters, not after: on the
    label made of 119 letters, a space and one more letter, the cut falls
    right behind the space, and the result is 120 characters long and ends
    in a space. *)
Theorem sanitize_filename_cut_trailing_space :
  sanitize_filename long_label = repeat 97%N 119 ++ lit " "
  /\ length (sanitize_filename long_label) = 120
  /\ last (sanitize_filename long_label) = Some 32%N
  /\ isspace 32%N = true.
Proof. vm_compute. repeat split. Qed.

(** C3 (idempotence fails on a cut result). On the same label a second
    pass strips the space the cut left, so sanitizing twice differs from
    sanitizing once. *)
Theorem sanitize_filename_cut_not_idempotent :
  sanitize_filename (sanitize_filename long_label) = repeat 97%N 119
  /\ sanitize_filename (sanitize_filename long_label)
     <> sanitize_filename long_label.
Proof. split; [reflexivity | vm_compute; discriminate]. Qed.


(* ===================================================================== *)
(** ** Scale and placement *)
(* ===================================================================== *)

Lemma exact_standard : standard_model exact.
Proof.
  split; unfold exact; cbn [rnd eps].
  - apply Qle_refl.
  - intros q. apply Qabs_Qle_condition. split; lra.
  - intros z _. reflexivity.
Qed.

(** The 53-bit rounding satisfies the laws of the model with
    [eps = 2^-53]. *)
Section Binary53.

Local Open Scope Q_scope.

Lemma pow2_pos e : 0 < pow2 e.
Proof. apply Qpower_0_lt. reflexivity. Qed.

Lemma pow2_add a b : pow2 (a + b) == pow2 a * pow2 b.
Proof. apply Qpower_plus. discriminate. Qed.

Lemma pow2_inject k : (0 <= k)%Z -> inject_Z (2 ^ k) == pow2 k.
Proof. intros Hk. apply (Zpower_Qpower 2 k Hk). Qed.

Lemma pow2_le_inv a b : pow2 a <= pow2 b -> (a <= b)%Z.
Proof.
  intros Hle. apply (Qpower_le_compat_l_inv 2 a b Hle). reflexivity.
Qed.

Lemma round_half_even_error m :
  Qabs (inject_Z (round_half_even m) - m) <= 1 # 2.
Proof.
  pose proof (Qfloor_le m) as Hlo. pose proof (Qlt_floor m) as Hhi.
  rewrite inject_Z_plus in Hhi. change (inject_Z 1) with 1 in Hhi.
  unfold round_half_even.
  apply Qabs_Qle_condition.
  destruct (m - inject_Z (Qfloor m) ?= 1 # 2) eqn:Hc.
  - apply Qeq_alt in Hc.
    destruct (Z.even (Qfloor m));
      [| rewrite inject_Z_plus; change (inject_Z 1) with 1];
      split; lra.
  - apply Qlt_alt in Hc. split; lra.
  - apply Qgt_alt in Hc. rewrite inject_Z_plus.
    change (inject_Z 1) with 1. split; lra.
Qed.

Lemma binade_le q : 0 < q -> pow2 (binade q) <= q.
Proof.
  intros Hq. unfold binade.
  destruct (Qle_bool _ q) eqn:Hb; [apply Qle_bool_iff, Hb |]. clear Hb.
  destruct q as [n d]. cbn [Qnum Qden].
  assert (0 < n)%Z as Hn.
  { unfold Qlt in Hq. simpl in Hq. lia. }
  set (a := Z.log2 n). set (b := Z.log2 (Z.pos d)).
  assert (0 <= a)%Z as Ha by apply Z.log2_nonneg.
  assert (0 <= b)%Z as Hb by apply Z.log2_nonneg.
  destruct (Z.log2_spec n Hn) as [Hn1 _]. fold a in Hn1.
  destruct (Z.log2_spec (Z.pos d) (Pos2Z.is_pos d)) as [_ Hd2].
  fold b in Hd2.
  assert (inject_Z (Z.pos d) <= pow2 (b + 1)) as Hd.
  { rewrite <- pow2_inject by lia. rewrite <- Zle_Qle.
    unfold Z.succ in Hd2. lia. }
  assert (pow2 a <= inject_Z n) as Hn'.
  { rewrite <- pow2_inject by lia. rewrite <- Zle_Qle. exact Hn1. }
  assert (pow2 (a - b - 1) * pow2 (b + 1) == pow2 a) as Hab.
  { rewrite <- pow2_add. replace (a - b - 1 + (b + 1))%Z with a by lia.
    reflexivity. }
  pose proof (pow2_pos (a - b - 1)) as Hp.
  rewrite (Qmake_Qdiv n d).
  apply Qle_shift_div_l; [reflexivity |].
  set (P := pow2 (a - b - 1)) in *. set (D := inject_Z (Z.pos d)) in *.
  set (P1 := pow2 (b + 1)) in *.
  assert (P * D <= P * P1) as H1 by nra.
  lra.
Qed.

Lemma round53_pos_error q :
  0 < q -> Qabs (round53_pos q - q) <= pow2 (-53) * q.
Proof.
  intros Hq. unfold round53_pos.
  pose proof (binade_le q Hq) as He.
  set (e := binade q) in *.
  pose proof (pow2_pos (e - 52)) as Hu.
  assert (pow2 (e - 52) == pow2 e * pow2 (-52)) as Hue.
  { rewrite <- pow2_add. reflexivity. }
  set (ulp := pow2 (e - 52)) in *.
  assert (q / ulp * ulp == q) as Hm by (field; lra).
  pose proof (round_half_even_error (q / ulp)) as Hr.
  set (m := q / ulp) in *.
  apply Qabs_Qle_condition in Hr.
  set (k := inject_Z (round_half_even m)) in *.
  assert (pow2 (-53) == (1 # 2) * pow2 (-52)) as H53 by reflexivity.
  assert (0 < pow2 (-52)) as H52 by apply pow2_pos.
  set (c := pow2 (-52)) in *. set (pe := pow2 e) in *.
  rewrite H53.
  assert ((k - m) * ulp <= (1 # 2) * ulp) as H1 by nra.
  assert (- ((1 # 2) * ulp) <= (k - m) * ulp) as H2 by nra.
  assert ((1 # 2) * c * pe <= (1 # 2) * c * q) as H3 by nra.
  apply Qabs_Qle_condition. split; nra.
Qed.

Lemma round53_error q : Qabs (round53 q - q) <= pow2 (-53) * Qabs q.
Proof.
  unfold round53. destruct q as [[|n|n] d]; cbn [Qnum].
  - assert (0 # d == 0) as H0 by reflexivity.
    rewrite H0. discriminate.
  - assert (0 < Z.pos n # d) as Hq by reflexivity.
    rewrite (Qabs_pos (Z.pos n # d)) by (apply Qlt_le_weak, Hq).
    apply round53_pos_error, Hq.
  - assert (0 < - (Z.neg n # d)) as Hq by reflexivity.
    pose proof (round53_pos_error _ Hq) as H.
    rewrite (Qabs_neg (Z.neg n # d)) by discriminate.
    apply Qabs_Qle_condition in H. apply Qabs_Qle_condition.
    split; lra.
Qed.

(** An integer multiple of the unit in the last place is left alone. *)
Lemma round_half_even_Z m k : m == inject_Z k -> round_half_even m = k.
Proof.
  intros Hm. unfold round_half_even.
  assert (Qfloor m = k) as ->.
  { rewrite Hm. apply Qfloor_Z. }
  assert ((m - inject_Z k ?= 1 # 2) = Lt) as ->; [| reflexivity].
  apply -> Qlt_alt. lra.
Qed.

Lemma round53_pos_int z :
  (0 < z <= 2 ^ 53)%Z -> round53_pos (inject_Z z) == inject_Z z.
Proof.
  intros [Hz0 Hz1]. unfold round53_pos.
  assert (0 < inject_Z z) as Hq.
  { change 0 with (inject_Z 0). rewrite <- Zlt_Qlt. exact Hz0. }
  pose proof (binade_le _ Hq) as He.
  set (e := binade (inject_Z z)) in *.
  assert (inject_Z z <= pow2 53) as Hz53.
  { rewrite <- pow2_inject by lia. rewrite <- Zle_Qle. exact Hz1. }
  assert (e <= 53)%Z as He53.
  { apply pow2_le_inv. lra. }
  pose proof (pow2_pos (e - 52)) as Hu.
  assert (exists k, inject_Z z / pow2 (e - 52) == inject_Z k) as [k Hk].
  { destruct (Z_le_gt_dec e 52) as [Hle | Hgt].
    - exists (z * 2 ^ (52 - e))%Z.
      rewrite inject_Z_mult, pow2_inject by lia.
      assert (pow2 (52 - e) * pow2 (e - 52) == 1) as Hinv.
      { rewrite <- pow2_add. replace (52 - e + (e - 52))%Z with 0%Z by lia.
        reflexivity. }
      pose proof (pow2_pos (52 - e)) as Hp.
      set (u := pow2 (e - 52)) in *. set (v := pow2 (52 - e)) in *.
      apply Qmult_inj_r with u; [lra |].
      assert (inject_Z z / u * u == inject_Z z) as -> by (field; lra).
      rewrite <- Qmult_assoc, Hinv. ring.
    - assert (e = 53%Z) as -> by lia.
      assert (inject_Z z == pow2 53) as Hz by lra.
      exists (2 ^ 52)%Z. rewrite Hz. reflexivity. }
  rewrite (round_half_even_Z _ k Hk). rewrite <- Hk. field. lra.
Qed.

Lemma round53_int z :
  (Z.abs z <= 2 ^ 53)%Z -> round53 (inject_Z z) == inject_Z z.
Proof.
  intros Hz. unfold round53. destruct z as [|p|p]; cbn [Qnum inject_Z].
  - reflexivity.
  - apply (round53_pos_int (Z.pos p)). split; [reflexivity | exact Hz].
  - change (- (Z.neg p # 1)) with (inject_Z (Z.pos p)).
    rewrite (round53_pos_int (Z.pos p)) by (split; [reflexivity | exact Hz]).
    reflexivity.
Qed.

Lemma binary53_standard : standard_model binary53.
Proof.
  split; unfold binary53; cbn [rnd eps].
  - apply Qlt_le_weak, pow2_pos.
  - apply round53_error.
  - apply round53_int.
Qed.

End Binary53.

Section Rounded.

Local Open Scope Q_scope.

Variable r : rounding.
Hypothesis Hr : standard_model r.

Let E := eps r.

Lemma rnd_bounds q : - (E * Qabs q) <= rnd r q - q <= E * Qabs q.
Proof. apply Qabs_Qle_condition, (rnd_error r Hr). Qed.

Lemma rnd_360 : rnd r 360 == 360.
Proof. apply (rnd_int r Hr 360). vm_compute. discriminate. Qed.

Lemma rnd_2 : rnd r 2 == 2.
Proof. apply (rnd_int r Hr 2). vm_compute. discriminate. Qed.

Lemma scale_to_target_rounded (bc_w bc_h : Q) :
  0 < bc_w ->
  @scale_to_target Q (rounded r) bc_w bc_h
  = OK (rnd r (rnd r 360 / bc_w),
        rnd r (bc_w * rnd r (rnd r 360 / bc_w)),
        rnd r (bc_h * rnd r (rnd r 360 / bc_w))).
Proof.
  intros Hw. unfold scale_to_target, truediv. simpl.
  destruct (Qeq_bool bc_w 0) eqn:Hz; [| reflexivity].
  apply Qeq_bool_iff in Hz. rewrite Hz in Hw. discriminate.
Qed.

Lemma placed_width_bound (bc_w : Q) :
  0 < bc_w ->
  Qabs (rnd r (bc_w * rnd r (rnd r 360 / bc_w)) - 360)
  <= 360 * E * (2 + E).
Proof.
  intros Hw.
  pose proof (eps_nonneg r Hr) as HE. fold E in HE.
  pose proof rnd_360 as Hc.
  set (c := rnd r 360) in *.
  assert (c / bc_w * bc_w == c) as Hd.
  { field. intros Hz. rewrite Hz in Hw. discriminate. }
  set (d := c / bc_w) in *.
  pose proof (rnd_bounds d) as Hs.
  set (s := rnd r d) in *.
  pose proof (rnd_bounds (bc_w * s)) as Hp.
  set (w := rnd r (bc_w * s)) in *.
  assert (0 < d) as Hdpos by nra.
  rewrite (Qabs_pos d) in Hs by lra.
  assert (- (E * 360) <= bc_w * s - 360 <= E * 360) as Hps by nra.
  assert (Qabs (bc_w * s) <= 360 + E * 360) as HA.
  { apply Qabs_Qle_condition. split; lra. }
  assert (0 <= Qabs (bc_w * s)) as HA0 by apply Qabs_nonneg.
  set (A := Qabs (bc_w * s)) in *.
  assert (E * A <= E * (360 + E * 360)) as HEA by nra.
  apply Qabs_Qle_condition. split; nra.
Qed.

Lemma placement_bound (page_len placed : Q) :
  Qabs (rnd r (rnd r (page_len - placed) / rnd r 2) + placed / 2
        - page_len / 2)
  <= E * (1 + E / 2) * Qabs (page_len - placed).
Proof.
  pose proof (eps_nonneg r Hr) as HE. fold E in HE.
  pose proof rnd_2 as H2.
  pose proof (rnd_bounds (page_len - placed)) as Ha.
  assert (0 <= Qabs (page_len - placed)) as HD0 by apply Qabs_nonneg.
  assert (- Qabs (page_len - placed) <= page_len - placed
          <= Qabs (page_len - placed)) as HD
    by (apply Qabs_Qle_condition; apply Qle_refl).
  set (D := Qabs (page_len - placed)) in *.
  set (a := rnd r (page_len - placed)) in *.
  assert (a / rnd r 2 == a * (1 # 2)) as Hq by (rewrite H2; field).
  pose proof (rnd_bounds (a / rnd r 2)) as Hx.
  set (x := rnd r (a / rnd r 2)) in *.
  assert (E * (1 + E / 2) * D == E * D + E * (E * D) * (1 # 2)) as HG
    by field.
  assert (x + placed / 2 - page_len / 2
          == x + placed * (1 # 2) - page_len * (1 # 2)) as HL by field.
  rewrite HG, HL. clear HG HL.
  assert (0 <= E * D) as HP by nra.
  set (P := E * D) in *.
  assert (Qabs (a / rnd r 2) <= (D + P) * (1 # 2)) as HA.
  { apply Qabs_Qle_condition. rewrite Hq. split; lra. }
  assert (0 <= Qabs (a / rnd r 2)) as HA0 by apply Qabs_nonneg.
  set (A := Qabs (a / rnd r 2)) in *.
  assert (E * A <= (P + E * P) * (1 # 2)) as HEA.
  { assert (E * A <= E * ((D + P) * (1 # 2))) as HEA by nra.
    assert (E * ((D + P) * (1 # 2)) == (P + E * P) * (1 # 2)) as HR
      by (unfold P; ring).
    rewrite HR in HEA. exact HEA. }
  assert (0 <= E * P) as HR by nra.
  set (R := E * P) in *.
  rewrite Hq in Hx.
  apply Qabs_Qle_condition. split; lra.
Qed.

End Rounded.

(** C4 (placed size, up to rounding). For every positive source width
    and height the scale is [BARCODE_TARGET_W / bc_w], the placed height
    is [bc_h] multiplied by the scale and the placed width is [bc_w]
    multiplied by the scale. Each operation rounds, so the placed width
    is the target width only up to rounding: in rounded arithmetic with
    relative error at most [eps] it differs from 360 by at most
    [360 * eps * (2 + eps)]. *)
Theorem placed_size_rounded (r : rounding) (Hr : standard_model r)
    (bc_w bc_h : Q) :
  (0 < bc_w)%Q -> (0 < bc_h)%Q ->
  exists scale barcode_w_pt barcode_h_pt : Q,
    @scale_to_target Q (rounded r) bc_w bc_h
    = OK (scale, barcode_w_pt, barcode_h_pt)
    /\ scale = rnd r (rnd r 360 / bc_w)
    /\ barcode_w_pt = rnd r (bc_w * scale)
    /\ barcode_h_pt = rnd r (bc_h * scale)
    /\ (Qabs (barcode_w_pt - 360) <= 360 * eps r * (2 + eps r))%Q.
Proof.
  intros Hw Hh. eexists _, _, _.
  split; [apply (scale_to_target_rounded r bc_w bc_h Hw) |].
  repeat split. apply (placed_width_bound r Hr bc_w Hw).
Qed.

Lemma placed_size_rounded_witness :
  exists scale barcode_w_pt barcode_h_pt : Q,
    @scale_to_target Q (rounded binary53) 39%Q 80%Q
    = OK (scale, barcode_w_pt, barcode_h_pt)
    /\ scale = rnd binary53 (rnd binary53 360 / 39)
    /\ barcode_w_pt = rnd binary53 (39 * scale)
    /\ barcode_h_pt = rnd binary53 (80 * scale)
    /\ (Qabs (barcode_w_pt - 360)
        <= 360 * eps binary53 * (2 + eps binary53))%Q.
Proof.
  apply (placed_size_rounded binary53 binary53_standard 39%Q 80%Q);
    reflexivity.
Defined.

(** In exact arithmetic the placed width is the target width. *)
Corollary placed_size_exact (bc_w bc_h : Q) :
  (0 < bc_w)%Q -> (0 < bc_h)%Q ->
  exists scale barcode_w_pt barcode_h_pt : Q,
    @scale_to_target Q (rounded exact) bc_w bc_h
    = OK (scale, barcode_w_pt, barcode_h_pt)
    /\ (scale == 360 / bc_w)%Q
    /\ (barcode_w_pt == 360)%Q
    /\ (barcode_h_pt == bc_h * scale)%Q.
Proof.
  intros Hw Hh.
  exists (360 / bc_w)%Q, (bc_w * (360 / bc_w))%Q, (bc_h * (360 / bc_w))%Q.
  split; [exact (scale_to_target_rounded exact bc_w bc_h Hw) |].
  repeat split; try reflexivity.
  field. intros Hz. rewrite Hz in Hw. discriminate.
Qed.

(** In binary64 it is not: a source page 39 points wide is placed
    359.99999999999994 points wide, the float just below 360. *)
Lemma placed_width_binary64_39 :
  let bc_w : PrimFloat.float := of_int 39 in
  let bc_h : PrimFloat.float := of_int 80 in
  flt (of_int 0) bc_w = true /\ flt (of_int 0) bc_h = true
  /\ exists scale barcode_w_pt barcode_h_pt,
       scale_to_target bc_w bc_h = OK (scale, barcode_w_pt, barcode_h_pt)
       /\ barcode_w_pt = PrimFloat.next_down BARCODE_TARGET_W
       /\ barcode_w_pt <> BARCODE_TARGET_W.
Proof.
  cbv zeta. split; [reflexivity |]. split; [reflexivity |].
  eexists _, _, _. split; [vm_compute; reflexivity |].
  split; [vm_compute; reflexivity |].
  intros Heq.
  apply (f_equal (fun v => PrimFloat.eqb v BARCODE_TARGET_W)) in Heq.
  vm_compute in Heq. discriminate.
Qed.

(** The scale example of the specification in binary64: a source of 100
    by 50 points has scale 3.6 and is placed 360 by 180 points. *)
Example scale_to_target_100_50 :
  @scale_to_target _ binary64 (of_int 100) (of_int 50)
  = OK (of_lit (36 # 10), of_int 360, of_int 180).
Proof. vm_compute. reflexivity. Qed.

(** On these inputs the rounded model with the 53-bit rounding computes
    the very numbers binary64 computes: the page size, and the scale and
    the placed size of a source page of 39 by 80 points. *)
Example binary53_agrees_with_binary64 :
  (let a := @reportlab_A4 Q (rounded binary53) in
   let b := @reportlab_A4 _ binary64 in
   fst a == to_Q (fst b) /\ snd a == to_Q (snd b))%Q
  /\ exists s w h s' w' h',
       @scale_to_target Q (rounded binary53) 39%Q 80%Q = OK (s, w, h)
       /\ @scale_to_target _ binary64 (of_int 39) (of_int 80)
          = OK (s', w', h')
       /\ (s == to_Q s' /\ w == to_Q w' /\ h == to_Q h')%Q
       /\ (w == 360 - 2 ^ (-44))%Q.
Proof.
  split; [split; vm_compute; reflexivity |].
  eexists _, _, _, _, _, _.
  split; [vm_compute; reflexivity |]. split; [vm_compute; reflexivity |].
  split; [repeat split; vm_compute; reflexivity |].
  vm_compute. reflexivity.
Qed.

(** C5 (centring, within rounding). Whatever placed size the renderer is
    given, in particular the one computed from a positive source width
    and height, the origin it returns centres the graphic on both axes up
    to rounding: [x + w/2] differs from [PAGE_W/2] by at most
    [eps * (1 + eps/2) * |PAGE_W - w|], and likewise on the other axis. *)
Theorem origin_centred_rounded (r : rounding) (Hr : standard_model r)
    (L : Platform Q) (top_text label_text : str)
    (barcode_w_pt barcode_h_pt : Q) :
  exists x y : Q,
    snd (@draw_base_a4_with_text_and_label Q (rounded r) L
           top_text label_text barcode_w_pt barcode_h_pt) = (x, y)
    /\ (Qabs (x + barcode_w_pt / 2 - PAGE_W L / 2)
        <= eps r * (1 + eps r / 2) * Qabs (PAGE_W L - barcode_w_pt))%Q
    /\ (Qabs (y + barcode_h_pt / 2 - PAGE_H L / 2)
        <= eps r * (1 + eps r / 2) * Qabs (PAGE_H L - barcode_h_pt))%Q.
Proof.
  eexists _, _. split; [reflexivity |].
  split; apply (placement_bound r Hr).
Qed.

Lemma origin_centred_rounded_witness :
  exists x y : Q,
    snd (@draw_base_a4_with_text_and_label Q (rounded binary53)
           (@sim Q (rounded binary53) false) lot42_text (lit "Lot 42")
           360%Q 144%Q) = (x, y)
    /\ (Qabs (x + 360 / 2 - PAGE_W (@sim Q (rounded binary53) false) / 2)
        <= eps binary53 * (1 + eps binary53 / 2)
           * Qabs (PAGE_W (@sim Q (rounded binary53) false) - 360))%Q
    /\ (Qabs (y + 144 / 2 - PAGE_H (@sim Q (rounded binary53) false) / 2)
        <= eps binary53 * (1 + eps binary53 / 2)
           * Qabs (PAGE_H (@sim Q (rounded binary53) false) - 144))%Q.
Proof.
  apply (origin_centred_rounded binary53 binary53_standard
           (@sim Q (rounded binary53) false) lot42_text (lit "Lot 42")
           360%Q 144%Q).
Defined.

(** In exact arithmetic the centring is exact. *)
Corollary origin_centred_exact (L : Platform Q) (top_text label_text : str)
    (barcode_w_pt barcode_h_pt : Q) :
  exists x y : Q,
    snd (@draw_base_a4_with_text_and_label Q (rounded exact) L
           top_text label_text barcode_w_pt barcode_h_pt) = (x, y)
    /\ (x + barcode_w_pt / 2 == PAGE_W L / 2)%Q
    /\ (y + barcode_h_pt / 2 == PAGE_H L / 2)%Q.
Proof.
  eexists _, _. split; [reflexivity |].
  cbn [rounded fdiv fsub of_lit exact rnd]. split; field.
Qed.

(** In binary64, on the scenario of the specification (placed size 360 by
    144) and on the source page of 39 by 80 points, the sums come out equal
    to the halves of the page size, bit for bit. *)
Example origin_centred_binary64 :
  let L := @sim _ binary64 false in
  let centred (w h : PrimFloat.float) :=
    let '(x, y) :=
      snd (draw_base_a4_with_text_and_label L lot42_text (lit "Lot 42") w h) in
    PrimFloat.eqb (PrimFloat.add x (fdiv w (of_lit 2)))
      (fdiv (PAGE_W L) (of_lit 2))
    && PrimFloat.eqb (PrimFloat.add y (fdiv h (of_lit 2)))
         (fdiv (PAGE_H L) (of_lit 2)) in
  centred (of_int 360) (of_int 144) = true
  /\ centred (PrimFloat.next_down (of_int 360))
       (fmul (of_int 80) (fdiv (of_int 360) (of_int 39))) = true.
Proof. vm_compute. split; reflexivity. Qed.

(* ===================================================================== *)
(** ** The renderer *)
(* ===================================================================== *)

Section Renderer.

Context {F : Type} `{PyFloat F} (L : Platform F).

(** The baseline of the [k]-th line from the top: [k] steps of one line
    height down from [y_text]. *)
Definition baseline (line_height y_text : F) (k : nat) : F :=
  Nat.iter k (fun y => fsub y line_height) y_text.

(** The line height and the top of the text block, as the renderer
    computes them. *)
Definition top_line_height : F :=
  fmul (of_int (snd TOP_TEXT_FONT)) (of_lit (13 # 10)).

Definition top_y_text : F := fsub (PAGE_H L) (of_int MARGIN).

Lemma baseline_shift lh y k :
  baseline lh (fsub y lh) k = baseline lh y (S k).
Proof.
  unfold baseline. induction k as [|k IH]; [reflexivity |].
  simpl. simpl in IH. rewrite IH. reflexivity.
Qed.

(** The drawing loop draws a prefix of the lines, one line height apart,
    none below the margin, and stops only where the next baseline would be
    below the margin. *)
Lemma draw_lines_spec lh y lines :
  exists n,
    n <= length lines
    /\ draw_lines lh y lines
       = imap (fun i line =>
                 DrawString (of_int MARGIN) (baseline lh y (S i)) line)
              (firstn n lines)
    /\ (forall i, i < n ->
          flt (baseline lh y (S i)) (of_int MARGIN) = false)
    /\ (n < length lines ->
          flt (baseline lh y (S n)) (of_int MARGIN) = true).
Proof.
  revert y. induction lines as [|line rest IH]; intros y.
  - exists 0. simpl. repeat split; lia.
  - simpl. destruct (flt (fsub y lh) (of_int MARGIN)) eqn:Hlt.
    + exists 0. simpl. repeat split; [lia | lia | intros _; exact Hlt].
    + destruct (IH (fsub y lh)) as (n & Hn & Hdraw & Hok & Hstop).
      exists (S n). split; [lia |]. split; [| split].
      * rewrite Hdraw. simpl. f_equal.
        apply imap_ext. intros i s _. simpl.
        f_equal. apply (baseline_shift lh y (S i)).
      * intros [|i] Hi; [exact Hlt |].
        rewrite <- baseline_shift. apply Hok. lia.
      * intros Hlen. rewrite <- baseline_shift. apply Hstop. lia.
Qed.

(** Every paragraph gives at least one line, and there is at least one
    paragraph. *)
Lemma wrapped_lines_nonempty top_text : wrapped_lines L top_text <> [].
Proof.
  unfold wrapped_lines. cbn [TOP_TEXT_FONT].
  destruct (splitlines top_text) as [|p ps]; simpl.
  - destruct (simpleSplit L _ _ _ _); discriminate.
  - destruct (simpleSplit L _ _ _ _); discriminate.
Qed.

(** The wrapped lines of the empty text: the one empty paragraph is handed
    to the word wrap as a single space, and an empty answer is replaced by
    one empty line. *)
Lemma wrapped_lines_empty :
  wrapped_lines L []
  = match simpleSplit L (lit " ") (fst TOP_TEXT_FONT) (snd TOP_TEXT_FONT)
            (fsub (PAGE_W L) (of_int (2 * MARGIN))) with
    | [] => [ [] ]
    | lines => lines
    end.
Proof.
  unfold wrapped_lines. cbn [TOP_TEXT_FONT fst snd splitlines splitlines_from
                             flat_map].
  rewrite app_nil_r. destruct (simpleSplit L _ _ _ _); reflexivity.
Qed.

End Renderer.

(** C6 (top text: top-down, one line height apart, cut at the bottom
    margin). The canvas holds the font of the top text, then one
    [drawString] per line of a prefix of the wrapped lines, then the label.
    Line [i] (from 0) is drawn at x = MARGIN on the baseline [i + 1] line
    heights ([font_size * 1.3]) below [PAGE_H - MARGIN]; no drawn baseline
    is below MARGIN (the test [baseline < MARGIN] is false for it); and
    when lines are left out, the first of them would have had its baseline
    below MARGIN. *)
Theorem top_text_drawn_above_margin {F : Type} `{PyFloat F}
    (L : Platform F) (top_text label_text : str)
    (barcode_w_pt barcode_h_pt : F) :
  let lines := wrapped_lines L top_text in
  let y i := baseline top_line_height (top_y_text L) (S i) in
  exists n label_y,
    n <= length lines
    /\ fst (draw_base_canvas L top_text label_text barcode_w_pt barcode_h_pt)
       = [SetFont (fst TOP_TEXT_FONT) (snd TOP_TEXT_FONT)]
         ++ imap (fun i line => DrawString (of_int MARGIN) (y i) line)
                 (firstn n lines)
         ++ [SetFont (fst LABEL_FONT) (snd LABEL_FONT);
             DrawCentredString (fdiv (PAGE_W L) (of_lit 2)) label_y
               label_text]
    /\ (forall i, i < n -> flt (y i) (of_int MARGIN) = false)
    /\ (n < length lines -> flt (y n) (of_int MARGIN) = true).
Proof.
  intros lines y.
  destruct (draw_lines_spec top_line_height (top_y_text L) lines)
    as (n & Hn & Hdraw & Hok & Hstop).
  exists n. eexists. split; [exact Hn |]. split; [| split; assumption].
  unfold draw_base_canvas. cbn [TOP_TEXT_FONT fst snd].
  fold lines. f_equal. f_equal. exact Hdraw.
Qed.

(** In rounded arithmetic the test [baseline < MARGIN] is the comparison
    of two rationals: every drawn baseline is at least 36, and a line is
    left out only when its baseline would be below 36. *)
Corollary top_text_baselines_rounded (r : rounding) (L : Platform Q)
    (top_text : str) :
  let PyFloat_Q := rounded r in
  let lines := wrapped_lines L top_text in
  let y i := baseline top_line_height (top_y_text L) (S i) in
  exists n,
    n <= length lines
    /\ (forall i, i < n -> (36 <= y i)%Q)
    /\ (n < length lines -> (y n < 36)%Q).
Proof.
  intros PyFloat_Q lines y.
  destruct (draw_lines_spec top_line_height (top_y_text L) lines)
    as (n & Hn & _ & Hok & Hstop).
  exists n. split; [exact Hn |]. split.
  - intros i Hi. specialize (Hok i Hi).
    apply negb_false_iff, Qle_bool_iff in Hok. exact Hok.
  - intros Hlen. specialize (Hstop Hlen).
    apply negb_true_iff in Hstop. apply Qnot_le_lt. intros Hle.
    apply Qle_bool_iff in Hle.
    change (Qle_bool 36 (y n) = false) in Hstop. congruence.
Qed.

(** A text of a hundred short lines in binary64: 59 lines are drawn, the
    last on the baseline 38.8897637795277, and the sixtieth would have been
    on 25.8897637795277. *)
Example top_text_overflow_binary64 :
  let L := @sim _ binary64 false in
  let text := concat (repeat (lit "x" ++ [LF]) 100) in
  let c := fst (draw_base_canvas L text (lit "L") (of_int 360) (of_int 144)) in
  length (wrapped_lines L text) = 100
  /\ length c = 1 + 59 + 2
  /\ c !! 59
     = Some (DrawString (of_int 36)
               (baseline top_line_height (top_y_text L) 59) (lit "x"))
  /\ flt (baseline top_line_height (top_y_text L) 59) (of_int 36) = false
  /\ flt (baseline top_line_height (top_y_text L) 60) (of_int 36) = true.
Proof. vm_compute. repeat split. Qed.

(** C9 (label anchor). The label is the last thing drawn on the canvas:
    one [drawCentredString] at x = [PAGE_W / 2] and y = [y - GAP], where
    [y] is the vertical origin the renderer returns for the graphic, its
    lower edge. *)
Theorem label_centred_below_graphic {F : Type} `{PyFloat F}
    (L : Platform F) (top_text label_text : str)
    (barcode_w_pt barcode_h_pt : F) :
  exists c x y,
    draw_base_canvas L top_text label_text barcode_w_pt barcode_h_pt
    = (c, (x, y))
    /\ draw_base_a4_with_text_and_label L top_text label_text
         barcode_w_pt barcode_h_pt
       = (canvas_save L (A4 L) c, (x, y))
    /\ x = fdiv (fsub (PAGE_W L) barcode_w_pt) (of_lit 2)
    /\ y = fdiv (fsub (PAGE_H L) barcode_h_pt) (of_lit 2)
    /\ last c
       = Some (DrawCentredString (fdiv (PAGE_W L) (of_lit 2))
                 (fsub y GAP_BARCODE_LABEL) label_text)
    /\ (forall lx ly s, DrawCentredString lx ly s ∈ c ->
          lx = fdiv (PAGE_W L) (of_lit 2)
          /\ ly = fsub y GAP_BARCODE_LABEL /\ s = label_text).
Proof.
  eexists _, _, _. split; [reflexivity |].
  split; [reflexivity |]. split; [reflexivity |]. split; [reflexivity |].
  split.
  - cbn [TOP_TEXT_FONT]. rewrite app_assoc.
    change [SetFont (fst LABEL_FONT) (snd LABEL_FONT);
            DrawCentredString ?a ?b ?c]
      with ([SetFont (fst LABEL_FONT) (snd LABEL_FONT)]
            ++ [DrawCentredString a b c]).
    rewrite app_assoc. apply last_snoc.
  - intros lx ly s Hin. cbn [TOP_TEXT_FONT] in Hin.
    apply elem_of_app in Hin as [Hin | Hin].
    { apply list_elem_of_singleton in Hin. discriminate. }
    apply elem_of_app in Hin as [Hin | Hin].
    { destruct (draw_lines_spec
                  (fmul (of_int 10) (of_lit (13 # 10)))
                  (fsub (PAGE_H L) (of_int MARGIN))
                  (wrapped_lines L top_text)) as (n & _ & Hdraw & _).
      rewrite Hdraw in Hin.
      apply elem_of_lookup_imap in Hin as (i & line & Heq & _).
      discriminate. }
    apply elem_of_cons in Hin as [Hin | Hin]; [discriminate |].
    apply list_elem_of_singleton in Hin. injection Hin as -> -> ->.
    repeat split.
Qed.

(** C10 (the wrapped lines are never empty). For every text the list of
    wrapped lines is non-empty. For the empty text, [splitlines] gives no
    paragraph, the renderer takes one empty paragraph instead and hands it
    to the word wrap as a single space; with reportlab's word wrap, which
    finds no word in a single space and answers with no line, the renderer
    puts one empty line in its place: the wrapped lines are exactly one
    blank line. *)
Theorem wrapped_lines_never_empty {F : Type} `{PyFloat F}
    (L : Platform F) (top_text : str) :
  simpleSplit L (lit " ") (fst TOP_TEXT_FONT) (snd TOP_TEXT_FONT)
    (fsub (PAGE_W L) (of_int (2 * MARGIN))) = [] ->
  wrapped_lines L top_text <> []
  /\ splitlines [] = []
  /\ wrapped_lines L [] = [ [] ].
Proof.
  intros Hsplit. split; [apply wrapped_lines_nonempty |].
  split; [reflexivity |].
  rewrite wrapped_lines_empty, Hsplit. reflexivity.
Qed.

Lemma wrapped_lines_never_empty_witness :
  wrapped_lines (@sim _ binary64 false) lot42_text <> []
  /\ splitlines [] = []
  /\ wrapped_lines (@sim _ binary64 false) [] = [ [] ].
Proof.
  apply (wrapped_lines_never_empty (@sim _ binary64 false) lot42_text).
  reflexivity.
Defined.

(* ===================================================================== *)
(** ** The compositor and the file system *)
(* ===================================================================== *)

Section Compose.

Context {F : Type} `{PyFloat F} (L : Platform F).

Implicit Types (w : world L) (e : exn).

(** A run is determined by its result and its final state. *)
Lemma run_result {A : Type} (m : M L A) w (r : result A) :
  fst (m w) = r -> m w = (r, snd (m w)).
Proof. intros <-. apply surjective_pairing. Qed.

(** Reading never changes the file system. *)
Lemma read_bytes_frame p w (r : result (Bytes L)) w' :
  read_bytes L p w = (r, w') -> w' = w.
Proof.
  unfold read_bytes. repeat case_match; congruence.
Qed.

Lemma read_text_frame p w (r : result str) w' :
  read_text L p w = (r, w') -> w' = w.
Proof.
  unfold read_text, bind, ret.
  destruct (read_bytes L p w) as [[b|e] w1] eqn:E;
    apply read_bytes_frame in E; congruence.
Qed.

(** The steps of [compose_final_pdf] before the output file is opened:
    they end with the page handed to the writer. *)
Definition composed_page (barcode_pdf_path txt_path label_text : str)
  : M L (page F) :=
  let* top_text := read_text L txt_path in
  let* bc_bytes := read_bytes L barcode_pdf_path in
  let* bc_reader := lift (PdfReader L bc_bytes) in
  let* bc_page := lift (first_page bc_reader) in
  let bc_w := fst (mediabox bc_page) in
  let bc_h := snd (mediabox bc_page) in
  let* '(scale, barcode_w_pt, barcode_h_pt) :=
    lift (scale_to_target bc_w bc_h) in
  let '(base_bytes, (x, y)) :=
    draw_base_a4_with_text_and_label L top_text label_text
      barcode_w_pt barcode_h_pt in
  let* base_reader := lift (PdfReader L base_bytes) in
  let* base_page := lift (first_page base_reader) in
  let t := [Scale scale; Translate x y] in
  lift (merge_transformed_page L base_page bc_page t).

Lemma compose_final_pdf_stages barcode_pdf_path txt_path label_text out_dir w :
  compose_final_pdf L barcode_pdf_path txt_path label_text out_dir w
  = (let* final := composed_page barcode_pdf_path txt_path label_text in
     let out_path := output_path L barcode_pdf_path label_text out_dir in
     let* _ := open_wb L out_path in
     let* _ := write_close L out_path (PdfWriter_write L [final]) in
     ret out_path) w.
Proof.
  unfold compose_final_pdf, composed_page, bind, lift.
  repeat case_match; simplify_eq; reflexivity.
Qed.

Lemma composed_page_frame barcode_pdf_path txt_path label_text w
    (r : result (page F)) w' :
  composed_page barcode_pdf_path txt_path label_text w = (r, w') -> w' = w.
Proof.
  unfold composed_page, bind, lift.
  destruct (read_text L txt_path w) as [[top_text|e] w1] eqn:E1;
    apply read_text_frame in E1; subst w1; [| congruence].
  destruct (read_bytes L barcode_pdf_path w) as [[b|e] w1] eqn:E2;
    apply read_bytes_frame in E2; subst w1; [| congruence].
  repeat case_match; congruence.
Qed.

(** What a successful run of the first stage returns. *)
Lemma composed_page_OK barcode_pdf_path txt_path label_text w final w' :
  composed_page barcode_pdf_path txt_path label_text w = (OK final, w') ->
  exists top_text bc_page scale barcode_w_pt barcode_h_pt base_reader
         base_page,
    read_text L txt_path w = (OK top_text, w)
    /\ scale_to_target (fst (mediabox bc_page)) (snd (mediabox bc_page))
       = OK (scale, barcode_w_pt, barcode_h_pt)
    /\ PdfReader L
         (fst (draw_base_a4_with_text_and_label L top_text label_text
                 barcode_w_pt barcode_h_pt)) = OK base_reader
    /\ first_page base_reader = OK base_page
    /\ merge_transformed_page L base_page bc_page
         [Scale scale;
          Translate
            (fst (snd (draw_base_canvas L top_text label_text
                         barcode_w_pt barcode_h_pt)))
            (snd (snd (draw_base_canvas L top_text label_text
                         barcode_w_pt barcode_h_pt)))]
       = OK final.
Proof.
  unfold composed_page, bind, lift.
  destruct (read_text L txt_path w) as [[top_text|e] w1] eqn:E1;
    pose proof (read_text_frame _ _ _ _ E1); subst w1; [| congruence].
  destruct (read_bytes L barcode_pdf_path w) as [[b|e] w1] eqn:E2;
    apply read_bytes_frame in E2; subst w1; [| congruence].
  destruct (PdfReader L b) as [bc_reader|e]; [| congruence].
  destruct (first_page bc_reader) as [bc_page|e]; [| congruence].
  destruct (scale_to_target _ _) as [[[scale bw] bh]|e] eqn:E3;
    [| congruence].
  cbn [draw_base_a4_with_text_and_label draw_base_canvas TOP_TEXT_FONT].
  destruct (PdfReader L _) as [base_reader|e] eqn:E4; [| congruence].
  destruct (first_page base_reader) as [base_page|e] eqn:E5; [| congruence].
  intros Hm. exists top_text, bc_page, scale, bw, bh, base_reader, base_page.
  split; [reflexivity |]. split; [exact E3 |]. split; [exact E4 |].
  split; [exact E5 |]. cbn [fst snd]. congruence.
Qed.

(** The library contracts the compositor relies on: the reader gives back
    the content of the page a canvas saved, and a merge appends to the
    content of the receiving page. *)
Definition reader_reads_canvas : Prop :=
  forall size c pages p,
    PdfReader L (canvas_save L size c) = OK pages ->
    first_page pages = OK p -> contents p = c.

Definition merge_appends : Prop :=
  forall base p t merged,
    merge_transformed_page L base p t = OK merged ->
    exists added, contents merged = contents base ++ added.

End Compose.

(** C1 (failure and the output file, as the code has it). Every failing
    run propagates the exception, and where it fails decides what is left.
    A failure before the output file is opened (reading the inputs, the
    division by the source width, rendering, the merge) leaves the file
    system as it was, and so does a failure of the open itself. A failure
    while the opened file is written leaves the file at the output path,
    holding what the failed write left in it: nothing removes it. Every
    failing run is one of these three. *)
Theorem compose_failure_file_system {F : Type} `{PyFloat F}
    (L : Platform F) (barcode_pdf_path txt_path label_text : str)
    (out_dir : option str) (w : world L) :
  let out_path := output_path L barcode_pdf_path label_text out_dir in
  let first_stage := composed_page L barcode_pdf_path txt_path label_text w in
  let run :=
    compose_final_pdf L barcode_pdf_path txt_path label_text out_dir w in
  (forall e w1, first_stage = (Raise e, w1) -> run = (Raise e, w))
  /\ (forall final w1 e,
        first_stage = (OK final, w1) ->
        open_fault L (files w) out_path = Some e ->
        run = (Raise e, w))
  /\ (forall final w1 e rest,
        first_stage = (OK final, w1) ->
        open_fault L (files w) out_path = None ->
        write_fault L (<[out_path := no_bytes L]> (files w)) out_path
          (PdfWriter_write L [final]) = Some (e, rest) ->
        run = (Raise e, World (<[out_path := rest]> (files w)) (dirs w))
        /\ files (snd run) !! out_path = Some rest)
  /\ (forall e w',
        run = (Raise e, w') ->
        (w' = w
         /\ (first_stage = (Raise e, w)
             \/ exists final,
                  first_stage = (OK final, w)
                  /\ open_fault L (files w) out_path = Some e))
        \/ (exists final rest,
              first_stage = (OK final, w)
              /\ open_fault L (files w) out_path = None
              /\ write_fault L (<[out_path := no_bytes L]> (files w)) out_path
                   (PdfWriter_write L [final]) = Some (e, rest)
              /\ w' = World (<[out_path := rest]> (files w)) (dirs w))).
Proof.
  cbv zeta.
  pose proof (compose_final_pdf_stages L barcode_pdf_path txt_path
                label_text out_dir w) as Hst.
  set (run := compose_final_pdf L barcode_pdf_path txt_path label_text
                out_dir w) in *.
  clearbody run.
  unfold bind, open_wb, write_close, ret in Hst.
  cbv zeta in Hst. cbn [files dirs] in Hst. revert Hst.
  destruct (composed_page L _ _ _ w) as [[final|e0] w1] eqn:E1;
    pose proof (composed_page_frame L _ _ _ _ _ _ E1); subst w1.
  2:{ intros ->. split; [intros e w1 [= <- _]; reflexivity |].
      split; [discriminate |]. split; [discriminate |].
      intros e w' [= <- <-].
      left. split; [reflexivity |]. left. reflexivity. }
  destruct (open_fault L (files w) _) as [e1|] eqn:E2.
  { intros ->. split; [discriminate |].
    split; [intros final' w1 e _ [= <-]; reflexivity |].
    split; [discriminate |].
    intros e w' [= <- <-]. left. split; [reflexivity |].
    right. exists final. split; reflexivity. }
  cbn [files dirs].
  destruct (write_fault L _ _ _) as [[e2 rest]|] eqn:E3;
    rewrite insert_insert_eq; intros ->.
  - split; [discriminate |]. split; [discriminate |]. split.
    + intros final' w1 e rest' [= <- _] _ Hw. rewrite E3 in Hw.
      injection Hw as <- <-. cbn [snd files].
      split; [reflexivity | apply lookup_insert_eq].
    + intros e w' [= <- <-]. right. exists final, rest.
      repeat split; first [reflexivity | exact E2 | exact E3].
  - split; [discriminate |]. split; [discriminate |]. split.
    + intros final' w1 e rest' [= <- _] _ Hw. rewrite E3 in Hw.
      discriminate Hw.
    + discriminate.
Qed.

Lemma compose_failure_file_system_witness :
  let L := @sim _ binary64 true in
  let w := lot42_world true in
  let out_path := lit "/in/Lot 42.pdf" in
  let run :=
    compose_final_pdf L (lit "/in/bc.pdf") (lit "/in/top.txt")
      (lit "Lot 42") None w in
  run = (Raise (OSError 28), World (<[out_path := Cut 0]> (files w)) (dirs w))
  /\ files (snd run) !! out_path = Some (Cut 0).
Proof.
  intros L w out_path run.
  destruct (composed_page L (lit "/in/bc.pdf") (lit "/in/top.txt")
              (lit "Lot 42") w) as [[final|e] w1] eqn:E.
  - apply (proj1 (proj2 (proj2
             (compose_failure_file_system L (lit "/in/bc.pdf")
                (lit "/in/top.txt") (lit "Lot 42") None w)))
             final w1 (OSError 28) (Cut 0) E); reflexivity.
  - apply (f_equal fst) in E. cbn [fst] in E.
    vm_compute in E. discriminate.
Defined.

(** When the disk is full the run fails and leaves a file at the output
    path, where there was none before the run. *)
Lemma compose_disk_full_leaves_file :
  let L := @sim _ binary64 true in
  let w := lot42_world true in
  let run :=
    compose_final_pdf L (lit "/in/bc.pdf") (lit "/in/top.txt")
      (lit "Lot 42") None w in
  let out_path := lit "/in/Lot 42.pdf" in
  fst run = Raise (OSError 28)
  /\ output_path L (lit "/in/bc.pdf") (lit "Lot 42") None = out_path
  /\ files w !! out_path = None
  /\ files (snd run) !! out_path = Some (Cut 0).
Proof. vm_compute. repeat split. Qed.

(** A healthy disk: the scenario of the specification. The output is
    [/in/Lot 42.pdf], one page with two lines of text, the label and the
    source placed at scale 1.8. *)
Example compose_lot42 :
  let L := @sim _ binary64 false in
  let run :=
    compose_final_pdf L (lit "/in/bc.pdf") (lit "/in/top.txt")
      (lit "Lot 42") None (lot42_world false) in
  fst run = OK (lit "/in/Lot 42.pdf")
  /\ exists y1 y2 lx ly tx ty size,
       files (snd run) !! lit "/in/Lot 42.pdf"
       = Some (PdfBlob
           [Page size
              [SetFont (lit "Helvetica") 10;
               DrawString (of_int 36) y1 (lit "Lot 42");
               DrawString (of_int 36) y2 (lit "Exp 2025-01-01");
               SetFont (lit "Helvetica") 12;
               DrawCentredString lx ly (lit "Lot 42");
               Placed [Scale (of_lit (18 # 10)); Translate tx ty]
                 (contents lot42_source)]]).
Proof.
  split; [vm_compute; reflexivity |].
  eexists _, _, _, _, _, _, _. vm_compute. reflexivity.
Qed.

(** C8 (the merge keeps the background). Given a reader that gives back
    the content a canvas saved and a merge that appends to the receiving
    page, the page of a successful run starts with everything the renderer
    drew, the lines of the top text and the label among it, and the placed
    graphic comes after: the background page is the receiver of the merge
    and the page handed to the writer. *)
Theorem compose_keeps_background {F : Type} `{PyFloat F}
    (L : Platform F) (barcode_pdf_path txt_path label_text : str)
    (out_dir : option str) (w w' : world L) (out_path : str) :
  reader_reads_canvas L -> merge_appends L ->
  compose_final_pdf L barcode_pdf_path txt_path label_text out_dir w
  = (OK out_path, w') ->
  exists top_text barcode_w_pt barcode_h_pt final added,
    read_text L txt_path w = (OK top_text, w)
    /\ out_path = output_path L barcode_pdf_path label_text out_dir
    /\ files w' !! out_path = Some (PdfWriter_write L [final])
    /\ contents final
       = fst (draw_base_canvas L top_text label_text
                barcode_w_pt barcode_h_pt) ++ added
    /\ (forall o, o ∈ draw_lines top_line_height (top_y_text L)
                        (wrapped_lines L top_text) -> o ∈ contents final)
    /\ (exists lx ly, DrawCentredString lx ly label_text ∈ contents final).
Proof.
  intros Hread Hmerge. rewrite compose_final_pdf_stages. unfold bind at 1.
  destruct (composed_page L _ _ _ w) as [[final|e0] w1] eqn:E1;
    pose proof (composed_page_frame L _ _ _ _ _ _ E1); subst w1;
    [| discriminate].
  cbv zeta. unfold bind, open_wb, write_close, ret. cbn [files dirs].
  destruct (open_fault L (files w) _) as [e1|] eqn:E2; [discriminate |].
  destruct (write_fault L _ _ _) as [[e2 rest]|] eqn:E3; [discriminate |].
  intros [= <- <-].
  apply composed_page_OK in E1
    as (top_text & bc_page & scale & bw & bh & base_reader & base_page
        & Htext & _ & Hreader & Hfirst & Hm).
  apply Hmerge in Hm as [added Hadd].
  pose proof (Hread _ _ _ _ Hreader Hfirst) as Hbase.
  rewrite Hbase in Hadd.
  exists top_text, bw, bh, final, added.
  split; [exact Htext |]. split; [reflexivity |].
  split; [cbn [files]; apply lookup_insert_eq |].
  split; [exact Hadd |]. rewrite Hadd. split.
  - intros o Ho. apply elem_of_app. left.
    unfold draw_base_canvas. cbn [TOP_TEXT_FONT fst snd].
    apply elem_of_app. right. apply elem_of_app. left. exact Ho.
  - eexists _, _. apply elem_of_app. left.
    unfold draw_base_canvas. cbn [TOP_TEXT_FONT fst snd].
    apply elem_of_app. right. apply elem_of_app. right.
    apply elem_of_cons. right. apply list_elem_of_singleton. reflexivity.
Qed.

Lemma sim_reader_reads_canvas {F : Type} `{PyFloat F} (b : bool) :
  reader_reads_canvas (sim b).
Proof.
  intros size c pages p. cbn [sim PdfReader canvas_save].
  intros [= <-] [= <-]. reflexivity.
Qed.

Lemma sim_merge_appends {F : Type} `{PyFloat F} (b : bool) :
  merge_appends (sim b).
Proof.
  intros base p t merged. cbn [sim merge_transformed_page].
  intros [= <-]. eexists. reflexivity.
Qed.

Lemma compose_keeps_background_witness :
  let L := @sim _ binary64 false in
  let w := lot42_world false in
  let out_path := lit "/in/Lot 42.pdf" in
  let w' :=
    snd (compose_final_pdf L (lit "/in/bc.pdf") (lit "/in/top.txt")
           (lit "Lot 42") None w) in
  exists top_text barcode_w_pt barcode_h_pt final added,
    read_text L (lit "/in/top.txt") w = (OK top_text, w)
    /\ out_path = output_path L (lit "/in/bc.pdf") (lit "Lot 42") None
    /\ files w' !! out_path = Some (PdfWriter_write L [final])
    /\ contents final
       = fst (draw_base_canvas L top_text (lit "Lot 42")
                barcode_w_pt barcode_h_pt) ++ added
    /\ (forall o, o ∈ draw_lines top_line_height (top_y_text L)
                        (wrapped_lines L top_text) -> o ∈ contents final)
    /\ (exists lx ly,
          DrawCentredString lx ly (lit "Lot 42") ∈ contents final).
Proof.
  intros L w out_path w'.
  apply (compose_keeps_background L (lit "/in/bc.pdf") (lit "/in/top.txt")
           (lit "Lot 42") None w w' out_path
           (sim_reader_reads_canvas false) (sim_merge_appends false)).
  apply run_result. vm_compute. reflexivity.
Defined.

(* ===================================================================== *)
(** ** The GUI action *)
(* ===================================================================== *)

(** A string of white space only, the empty string included, strips to
    the empty string. *)
Lemma strip_blank (s : str) :
  Forall (fun c => isspace c = true) s -> strip s = [].
Proof.
  intros Hs. unfold strip.
  assert (lstrip s = []) as ->; [| reflexivity].
  induction Hs as [|c s Hc Hs IH]; simpl; [reflexivity |].
  rewrite Hc. exact IH.
Qed.

Lemma strip_nil_blank (s : str) :
  strip s = [] -> Forall (fun c => isspace c = true) s.
Proof.
  intros Hs. destruct (lstrip_split s) as [u [Eu Hu]].
  destruct (rstrip_split (lstrip s)) as [v [Ev Hv]].
  fold (strip s) in Ev. rewrite Hs in Ev. simpl in Ev.
  rewrite Eu, Ev. apply Forall_app. split; assumption.
Qed.

(** C7 (blank label). When the label is empty or made of white space only,
    [create_pdf] shows one of its three validation messages and returns
    with the file system as it was: [compose_final_pdf], which does all
    the reading, rendering and writing, is not reached, so no output file
    is produced. The message is the one about the label as soon as the
    two file fields pass their checks, which come first. *)
Theorem create_pdf_blank_label {F : Type} `{PyFloat F} (L : Platform F)
    (app : App) (w : world L) :
  Forall (fun c => isspace c = true) (label_var app) ->
  exists d,
    create_pdf L app w = (d, w)
    /\ (d = ErrInvalidPdf \/ d = ErrInvalidTxt \/ d = ErrLabelRequired)
    /\ (path_exists L w (strip (src_pdf app)) = true ->
        strip (src_pdf app) <> [] ->
        path_exists L w (strip (txt_file app)) = true ->
        strip (txt_file app) <> [] ->
        d = ErrLabelRequired).
Proof.
  intros Hblank. apply strip_blank in Hblank.
  unfold create_pdf. rewrite Hblank. cbn [is_empty].
  destruct (strip (src_pdf app)) as [|c s] eqn:Es; cbn [is_empty orb].
  { eexists. split; [reflexivity |]. split; [tauto | congruence]. }
  destruct (path_exists L w (c :: s)) eqn:Ps; cbn [negb].
  2:{ eexists. split; [reflexivity |]. split; [tauto | congruence]. }
  destruct (strip (txt_file app)) as [|c' s'] eqn:Et; cbn [is_empty orb].
  { eexists. split; [reflexivity |]. split; [tauto | congruence]. }
  destruct (path_exists L w (c' :: s')) eqn:Pt; cbn [negb].
  2:{ eexists. split; [reflexivity |]. split; [tauto | congruence]. }
  eexists. split; [reflexivity |]. split; [tauto | reflexivity].
Qed.

Lemma create_pdf_blank_label_witness :
  let L := @sim _ binary64 false in
  let w := lot42_world false in
  let app := {| src_pdf := lit "/in/bc.pdf"; txt_file := lit "/in/top.txt";
                out_dir_var := []; label_var := lit "   " |} in
  exists d,
    create_pdf L app w = (d, w)
    /\ (d = ErrInvalidPdf \/ d = ErrInvalidTxt \/ d = ErrLabelRequired)
    /\ (path_exists L w (strip (src_pdf app)) = true ->
        strip (src_pdf app) <> [] ->
        path_exists L w (strip (txt_file app)) = true ->
        strip (txt_file app) <> [] ->
        d = ErrLabelRequired).
Proof.
  intros L w app. apply (create_pdf_blank_label L app w).
  repeat constructor.
Defined.

(** The same window with the label filled in creates the file. *)
Example create_pdf_lot42 :
  let L := @sim _ binary64 false in
  let app := {| src_pdf := lit "/in/bc.pdf"; txt_file := lit "/in/top.txt";
                out_dir_var := []; label_var := lit " Lot 42 " |} in
  fst (create_pdf L app (lot42_world false))
  = InfoCreated (lit "/in/Lot 42.pdf").
Proof. vm_compute. reflexivity. Qed.

(** Called directly, [compose_final_pdf] makes no such check: a blank
    label gives the file [output.pdf]. *)
Example compose_blank_label :
  let L := @sim _ binary64 false in
  fst (compose_final_pdf L (lit "/in/bc.pdf") (lit "/in/top.txt") (lit "  ")
         None (lot42_world false))
  = OK (lit "/in/output.pdf").
Proof. vm_compute. reflexivity. Qed.

(* ===================================================================== *)
(** * Further properties *)
(* ===================================================================== *)

(* ===================================================================== *)
(** ** The sanitizer on every input *)
(* ===================================================================== *)

(** The characters the sanitizer passes through untouched: neither
    forbidden, nor white space, nor the hyphen it writes itself. *)
Definition letter (c : char) : bool :=
  negb (forbidden c) && negb (isspace c) && negb (c =? 45)%N.

(** Two characters the sanitizer cannot tell apart: the same character,
    two forbidden characters, or two white-space characters. *)
Definition same_class (c d : char) : Prop :=
  c = d \/ (forbidden c = true /\ forbidden d = true)
  \/ (isspace c = true /\ isspace d = true).

(** A name the sanitizer has nothing to do on. *)
Definition tidy (s : str) : Prop :=
  1 <= length s <= 120
  /\ Forall allowed s
  /\ spaces_single_from false s
  /\ (forall c, head s = Some c -> isspace c = false)
  /\ (forall c, last s = Some c -> isspace c = false).

Section SanitizerMore.

Implicit Types (s t u : str) (c d : char).

Lemma forbidden_not_space c : forbidden c = true -> isspace c = false.
Proof.
  unfold forbidden. intros H. apply existsb_exists in H as (d & Hin & Hd).
  apply N.eqb_eq in Hd. subst d.
  simpl in Hin. repeat destruct Hin as [<- | Hin]; try reflexivity.
  destruct Hin.
Qed.

Lemma spaces_single_lookup b s i c :
  spaces_single_from b s -> s !! i = Some c -> isspace c = true ->
  c = 32%N /\ (forall d, s !! S i = Some d -> isspace d = false).
Proof.
  revert b i. induction s as [|x s IH]; intros b i Hs Hi Hc; [discriminate |].
  destruct i as [|i]; simpl in Hi.
  - injection Hi as ->. simpl in Hs. rewrite Hc in Hs.
    destruct Hs as (-> & _ & Hs). split; [reflexivity |].
    intros d Hd. destruct s as [|y s]; [discriminate |].
    simpl in Hd. injection Hd as ->. simpl in Hs.
    destruct (isspace d); [| reflexivity]. destruct Hs as (_ & Hf & _).
    discriminate.
  - simpl in Hs. destruct (isspace x).
    + destruct Hs as (_ & _ & Hs). exact (IH _ _ Hs Hi Hc).
    + exact (IH _ _ Hs Hi Hc).
Qed.

Lemma sanitize_filename_single name :
  spaces_single_from false (sanitize_filename name).
Proof.
  rewrite sanitize_filename_cleaned.
  pose proof (cleaned_single name) as Hs.
  destruct (cleaned name) as [|d t] eqn:E.
  - vm_compute. tauto.
  - rewrite <- (firstn_skipn 120 (d :: t)) in Hs.
    eapply spaces_single_app_l, Hs.
Qed.

Lemma rstrip_rstrip s : rstrip (rstrip s) = rstrip s.
Proof. apply rstrip_id, rstrip_last. Qed.

Lemma re_sub_length cls (rep : str) b s :
  length rep <= 1 -> length (re_sub_plus_from cls rep b s) <= length s.
Proof.
  intros Hrep. revert b. induction s as [|c s IH]; intros b; simpl; [lia |].
  destruct (cls c).
  - destruct b.
    + specialize (IH true). lia.
    + rewrite length_app. specialize (IH true). lia.
  - simpl. specialize (IH false). lia.
Qed.

Lemma strip_length s : length (strip s) <= length s.
Proof.
  destruct (strip_split s) as (u & v & E).
  rewrite E at 2. rewrite !length_app. lia.
Qed.

Lemma cleaned_length name : length (cleaned name) <= length name.
Proof.
  unfold cleaned, re_sub_plus.
  etransitivity; [apply strip_length |].
  etransitivity; [apply re_sub_length; simpl; lia |].
  etransitivity; [apply re_sub_length; simpl; lia |].
  apply strip_length.
Qed.

(** A tidy name is left as it is. *)
Lemma sanitize_filename_tidy s : tidy s -> sanitize_filename s = s.
Proof.
  intros (Hlen & Ha & Hs & Hh & Hl).
  unfold sanitize_filename, re_sub_plus.
  rewrite (strip_id s Hh Hl).
  rewrite (re_sub_forbidden_fixed false s Ha).
  rewrite (re_sub_space_fixed false s Hs).
  rewrite (strip_id s Hh Hl).
  destruct s as [|c s]; [simpl in Hlen; lia |].
  apply firstn_all2. lia.
Qed.

End SanitizerMore.

(** X1 (length and character set, every input). Whatever the input, the
    sanitizer returns between 1 and 120 characters, none of them one of
    the nine forbidden characters. *)
Theorem sanitize_filename_length_charset (name : str) :
  1 <= length (sanitize_filename name) <= 120
  /\ (forall c, c ∈ sanitize_filename name -> c ∉ forbidden_set).
Proof.
  split; [apply sanitize_filename_length |].
  intros c. apply sanitize_filename_no_forbidden.
Qed.

(** X2 (white space of a result, every input). A result never starts with
    white space; every white-space character in it is the plain space
    U+0020 and is followed by a character that is not white space, if by
    any; and a result ends in a space only when it was cut, in which case
    it is exactly 120 characters long. *)
Theorem sanitize_filename_white_space (name : str) :
  let r := sanitize_filename name in
  (forall c, head r = Some c -> isspace c = false)
  /\ (forall i c, r !! i = Some c -> isspace c = true ->
        c = 32%N /\ (forall d, r !! S i = Some d -> isspace d = false))
  /\ (forall c, last r = Some c -> isspace c = true -> length r = 120).
Proof.
  intros r. split; [apply sanitize_filename_head |]. split.
  - intros i c. apply spaces_single_lookup with (b := false).
    apply sanitize_filename_single.
  - intros c Hl Hc.
    destruct (sanitize_filename_last_space name c Hl Hc) as (_ & H & _).
    exact H.
Qed.

(** X3 (two passes are enough). A second pass only strips the result on
    the right, a third pass changes nothing any more, and the second pass
    changes nothing exactly when the first result does not end in white
    space. *)
Theorem sanitize_filename_stable_after_two (name : str) :
  let r := sanitize_filename name in
  sanitize_filename r = rstrip r
  /\ sanitize_filename (sanitize_filename r) = sanitize_filename r
  /\ (sanitize_filename r = r
      <-> forall c, last r = Some c -> isspace c = false).
Proof.
  intros r. split; [apply sanitize_filename_twice |]. split.
  - unfold r. rewrite (sanitize_filename_twice (sanitize_filename name)).
    rewrite (sanitize_filename_twice name). apply rstrip_rstrip.
  - split.
    + intros Heq c Hl. unfold r in *. rewrite sanitize_filename_twice in Heq.
      rewrite <- Heq in Hl. exact (rstrip_last _ _ Hl).
    + apply sanitize_filename_idempotent_uncut.
Qed.

(** X4 (the names left alone). The sanitizer returns a name unchanged
    exactly when the name is tidy: 1 to 120 characters, none forbidden,
    white space made of single inner spaces only. *)
Theorem sanitize_filename_fixed_points (s : str) :
  sanitize_filename s = s <-> tidy s.
Proof.
  split; [| apply sanitize_filename_tidy].
  intros Heq. unfold tidy.
  pose proof (sanitize_filename_length s) as Hlen.
  pose proof (sanitize_filename_allowed s) as Ha.
  pose proof (sanitize_filename_single s) as Hs.
  pose proof (sanitize_filename_head s) as Hh.
  pose proof (sanitize_filename_last_space s) as Hl.
  pose proof (cleaned_length s) as Hc.
  rewrite Heq in Hlen, Ha, Hs, Hh, Hl.
  repeat split; try assumption; try lia.
  intros c Hlast. destruct (isspace c) eqn:Hsp; [| reflexivity].
  destruct (Hl c Hlast Hsp) as (_ & H120 & Hgt). lia.
Qed.

Section SanitizerClasses.

Implicit Types (s t u : str) (c d : char).

Lemma filter_letter_spaces u :
  Forall (fun c => isspace c = true) u -> List.filter letter u = [].
Proof.
  induction 1 as [|c u Hc _ IH]; [reflexivity |].
  simpl. unfold letter at 1. rewrite Hc, andb_false_r. exact IH.
Qed.

Lemma filter_letter_strip s :
  List.filter letter (strip s) = List.filter letter s.
Proof.
  destruct (lstrip_split s) as [u [Eu Hu]].
  destruct (rstrip_split (lstrip s)) as [v [Ev Hv]].
  fold (strip s) in Ev. rewrite Eu at 2. rewrite Ev.
  rewrite !List.filter_app, (filter_letter_spaces u Hu),
    (filter_letter_spaces v Hv), app_nil_r. reflexivity.
Qed.

Lemma filter_letter_re_sub_forbidden b s :
  List.filter letter (re_sub_plus_from forbidden (lit "-") b s)
  = List.filter letter s.
Proof.
  revert b. induction s as [|c s IH]; intros b; simpl; [reflexivity |].
  destruct (forbidden c) eqn:Hc.
  - unfold letter at 2. rewrite Hc. simpl.
    destruct b; [apply IH |]. simpl. apply IH.
  - simpl. rewrite IH. reflexivity.
Qed.

Lemma filter_letter_re_sub_space b s :
  List.filter letter (re_sub_plus_from isspace (lit " ") b s)
  = List.filter letter s.
Proof.
  revert b. induction s as [|c s IH]; intros b; simpl; [reflexivity |].
  destruct (isspace c) eqn:Hc.
  - unfold letter at 2. rewrite Hc, andb_false_r. simpl.
    destruct b; [apply IH |]. simpl. apply IH.
  - simpl. rewrite IH. reflexivity.
Qed.

Lemma filter_letter_cleaned name :
  List.filter letter (cleaned name) = List.filter letter name.
Proof.
  unfold cleaned, re_sub_plus.
  rewrite filter_letter_strip, filter_letter_re_sub_space,
    filter_letter_re_sub_forbidden. apply filter_letter_strip.
Qed.

(** The first character that is not white space survives every stage,
    as itself or as a hyphen. *)
Lemma cleaned_head name c :
  head (lstrip name) = Some c ->
  exists t, cleaned name = (if forbidden c then 45%N else c) :: t.
Proof.
  intros Hhead.
  pose proof (lstrip_head name c Hhead) as Hc.
  destruct (lstrip name) as [|c' t0] eqn:El; [discriminate |].
  injection Hhead as ->.
  unfold cleaned, strip at 2. rewrite El.
  destruct (rstrip_cons_nonspace c t0 Hc) as [t1 ->].
  unfold re_sub_plus. cbn [re_sub_plus_from].
  set (h := if forbidden c then 45%N else c).
  assert (isspace h = false) as Hh.
  { unfold h. destruct (forbidden c); [reflexivity | exact Hc]. }
  assert (exists t2, re_sub_plus_from isspace (lit " ") false
            (if forbidden c
             then lit "-" ++ re_sub_plus_from forbidden (lit "-") true t1
             else c :: re_sub_plus_from forbidden (lit "-") false t1)
          = h :: t2) as [t2 ->].
  { unfold h. destruct (forbidden c); cbn [lit map list_ascii_of_string app
      re_sub_plus_from N_of_ascii].
    - eexists. reflexivity.
    - rewrite Hc. eexists. reflexivity. }
  unfold strip. rewrite lstrip_id.
  - apply (rstrip_cons_nonspace h t2 Hh).
  - simpl. intros d [= <-]. exact Hh.
Qed.

Lemma same_class_space c d : same_class c d -> isspace c = isspace d.
Proof.
  intros [-> | [[Hc Hd] | [Hc Hd]]]; [reflexivity | | congruence].
  rewrite (forbidden_not_space c Hc), (forbidden_not_space d Hd).
  reflexivity.
Qed.

Lemma same_class_forbidden c d : same_class c d -> forbidden c = forbidden d.
Proof.
  intros [-> | [[Hc Hd] | [Hc Hd]]]; [reflexivity | congruence |].
  destruct (forbidden c) eqn:Fc.
  { apply forbidden_not_space in Fc. congruence. }
  destruct (forbidden d) eqn:Fd; [| reflexivity].
  apply forbidden_not_space in Fd. congruence.
Qed.

Lemma lstrip_same_class s t :
  Forall2 same_class s t -> Forall2 same_class (lstrip s) (lstrip t).
Proof.
  induction 1 as [|c d s t Hcd Hst IH]; simpl; [constructor |].
  rewrite <- (same_class_space c d Hcd).
  destruct (isspace c); [exact IH | constructor; assumption].
Qed.

Lemma rev_same_class s t :
  Forall2 same_class s t -> Forall2 same_class (rev s) (rev t).
Proof.
  induction 1 as [|c d s t Hcd Hst IH]; simpl; [constructor |].
  apply Forall2_app; [exact IH | constructor; [exact Hcd | constructor]].
Qed.

Lemma strip_same_class s t :
  Forall2 same_class s t -> Forall2 same_class (strip s) (strip t).
Proof.
  intros H. unfold strip, rstrip.
  apply rev_same_class, lstrip_same_class, rev_same_class,
    lstrip_same_class, H.
Qed.

Lemma re_sub_forbidden_same_class b s t :
  Forall2 same_class s t ->
  Forall2 (fun c d => c = d \/ (isspace c = true /\ isspace d = true))
    (re_sub_plus_from forbidden (lit "-") b s)
    (re_sub_plus_from forbidden (lit "-") b t).
Proof.
  intros H. revert b.
  induction H as [|c d s t Hcd Hst IH]; intros b; simpl; [constructor |].
  rewrite <- (same_class_forbidden c d Hcd).
  destruct (forbidden c) eqn:Fc.
  - destruct b; [apply IH |]. simpl. constructor; [left; reflexivity |].
    apply IH.
  - constructor; [| apply IH].
    destruct Hcd as [-> | [[Hc _] | Hsp]]; [left; reflexivity | congruence |].
    right. exact Hsp.
Qed.

Lemma re_sub_space_same_class b s t :
  Forall2 (fun c d => c = d \/ (isspace c = true /\ isspace d = true)) s t ->
  re_sub_plus_from isspace (lit " ") b s
  = re_sub_plus_from isspace (lit " ") b t.
Proof.
  intros H. revert b.
  induction H as [|c d s t Hcd Hst IH]; intros b; simpl; [reflexivity |].
  assert (isspace c = isspace d) as Hsp.
  { destruct Hcd as [-> | [Hc Hd]]; congruence. }
  rewrite <- Hsp. destruct (isspace c) eqn:Sc.
  - destruct b; rewrite IH; reflexivity.
  - destruct Hcd as [-> | [Hc _]]; [| congruence]. rewrite IH. reflexivity.
Qed.

End SanitizerClasses.

(** X5 (the fallback and the first character). A label made of white
    space only, the empty label included, gives the name [output]. Any
    other label gives a name that starts with its first character that is
    not white space, or with a hyphen when that character is forbidden. *)
Theorem sanitize_filename_first_character (name : str) :
  (Forall (fun c => isspace c = true) name ->
   sanitize_filename name = lit "output")
  /\ (forall c, head (lstrip name) = Some c ->
      head (sanitize_filename name)
      = Some (if forbidden c then 45%N else c)).
Proof.
  split.
  - intros Hblank. unfold sanitize_filename.
    rewrite (strip_blank name Hblank). reflexivity.
  - intros c Hc. rewrite sanitize_filename_cleaned.
    destruct (cleaned_head name c Hc) as [t ->]. reflexivity.
Qed.

(** X6 (letters survive in order). Take from a label that is not blank
    the characters that are neither forbidden, nor white space, nor a
    hyphen; the same selection from the sanitized name is a prefix of
    them, and all of them when the label has at most 120 characters.
    No such character is changed, reordered or invented, whatever its
    code point. *)
Theorem sanitize_filename_keeps_letters (name : str) :
  strip name <> [] ->
  exists cut,
    List.filter letter name
    = List.filter letter (sanitize_filename name) ++ cut
    /\ (length name <= 120 -> cut = []).
Proof.
  intros Hne.
  assert (cleaned name <> []) as Hc.
  { destruct (strip_split name) as (u & v & E).
    destruct (lstrip name) as [|c t] eqn:El.
    - unfold strip in Hne. rewrite El in Hne. contradiction.
    - destruct (cleaned_head name c) as [t' ->];
        [rewrite El; reflexivity | discriminate]. }
  rewrite sanitize_filename_cleaned.
  destruct (cleaned name) as [|c t] eqn:E; [contradiction |].
  exists (List.filter letter (skipn 120 (c :: t))). split.
  - rewrite <- List.filter_app, firstn_skipn, <- E.
    symmetry. apply filter_letter_cleaned.
  - intros Hlen. pose proof (cleaned_length name) as Hcl.
    rewrite E in Hcl. rewrite skipn_all2 by lia. reflexivity.
Qed.

Lemma sanitize_filename_keeps_letters_witness :
  let name := [350; 105; 351; 101; 47; 49; 32]%N in
  exists cut,
    List.filter letter name
    = List.filter letter (sanitize_filename name) ++ cut
    /\ (length name <= 120 -> cut = []).
Proof.
  intros name. apply (sanitize_filename_keeps_letters name).
  vm_compute. discriminate.
Defined.

(** X7 (labels that collide). Two labels of the same length that differ
    only in which forbidden character, or which white-space character,
    stands at a position get the same name. *)
Theorem sanitize_filename_same_class (s t : str) :
  Forall2 same_class s t -> sanitize_filename s = sanitize_filename t.
Proof.
  intros H. unfold sanitize_filename, re_sub_plus.
  rewrite (re_sub_space_same_class false _ _
             (re_sub_forbidden_same_class false _ _
                (strip_same_class s t H))).
  reflexivity.
Qed.

Lemma sanitize_filename_same_class_witness :
  sanitize_filename (lit "A/B C")
  = sanitize_filename (lit "A:B" ++ [9%N; 67%N]).
Proof.
  apply sanitize_filename_same_class.
  repeat constructor; unfold same_class; vm_compute; tauto.
Defined.

Lemma sanitize_filename_first_character_witness :
  sanitize_filename (lit "   ") = lit "output"
  /\ head (sanitize_filename (lit " /a")) = Some 45%N.
Proof.
  split.
  - apply (proj1 (sanitize_filename_first_character (lit "   "))).
    repeat constructor.
  - apply (proj2 (sanitize_filename_first_character (lit " /a")) 47%N).
    reflexivity.
Defined.

(* ===================================================================== *)
(** ** The renderer in exact arithmetic *)
(* ===================================================================== *)

Section RendererExact.

Local Open Scope Q_scope.

Variable L : Platform Q.

Local Instance exact_arithmetic : PyFloat Q := rounded exact.

Lemma top_line_height_exact : top_line_height == 13.
Proof. reflexivity. Qed.

Lemma baseline_exact (lh y : Q) (k : nat) :
  baseline lh y k == y - inject_Z (Z.of_nat k) * lh.
Proof.
  unfold baseline. induction k as [|k IH].
  - simpl. ring.
  - rewrite Nat2Z.inj_succ. unfold Z.succ. rewrite inject_Z_plus.
    change (inject_Z 1) with 1.
    change (Nat.iter (S k) (fun y0 : Q => fsub y0 lh) y)
      with (Nat.iter k (fun y0 : Q => fsub y0 lh) y - lh).
    set (v := Nat.iter k (fun y0 : Q => fsub y0 lh) y) in *.
    set (n := inject_Z (Z.of_nat k)) in *. nra.
Qed.

(** An integer is below a rational exactly when it is below its floor. *)
Lemma Zle_Qfloor (z : Z) (q : Q) : inject_Z z <= q <-> (z <= Qfloor q)%Z.
Proof.
  split.
  - intros H. rewrite <- (Qfloor_Z z). apply Qfloor_resp_le, H.
  - intros H. apply Qle_trans with (inject_Z (Qfloor q)).
    + rewrite <- Zle_Qle. exact H.
    + apply Qfloor_le.
Qed.

(** The number of lines the text block of the page holds. *)
Definition text_capacity : nat :=
  Z.to_nat (Qfloor ((PAGE_H L - 72) / 13)).

Lemma baseline_above_margin (k : nat) :
  36 <= baseline top_line_height (top_y_text L) k
  <-> (Z.of_nat k <= Qfloor ((PAGE_H L - 72) / 13))%Z.
Proof.
  rewrite baseline_exact, top_line_height_exact, <- Zle_Qfloor.
  unfold top_y_text. cbn [fsub exact_arithmetic rounded exact rnd of_int].
  change (inject_Z MARGIN) with 36.
  set (n := inject_Z (Z.of_nat k)). set (h := PAGE_H L).
  split; intros H.
  - apply Qle_shift_div_l; [reflexivity | lra].
  - assert (n * 13 <= (h - 72) / 13 * 13) as H1 by nra.
    assert ((h - 72) / 13 * 13 == h - 72) as H2 by field.
    lra.
Qed.

Lemma drawn_count (lines : list str) (n : nat) :
  (n <= length lines)%nat ->
  (forall i, (i < n)%nat ->
     flt (baseline top_line_height (top_y_text L) (S i)) (of_int MARGIN)
     = false) ->
  ((n < length lines)%nat ->
     flt (baseline top_line_height (top_y_text L) (S n)) (of_int MARGIN)
     = true) ->
  n = Nat.min (length lines) text_capacity.
Proof.
  intros Hn Hok Hstop. unfold text_capacity.
  assert (forall k, flt (baseline top_line_height (top_y_text L) k)
                      (of_int MARGIN) = false
                    <-> (Z.of_nat k <= Qfloor ((PAGE_H L - 72) / 13))%Z)
    as Htest.
  { intros k. rewrite <- baseline_above_margin.
    cbn [flt exact_arithmetic rounded]. rewrite negb_false_iff.
    apply Qle_bool_iff. }
  set (cap := Qfloor ((PAGE_H L - 72) / 13)) in *.
  assert (n <= Z.to_nat cap)%nat as Hle.
  { destruct n as [|n]; [lia |].
    specialize (Hok n (Nat.lt_succ_diag_r n)). apply Htest in Hok. lia. }
  destruct (Nat.eq_dec n (length lines)) as [-> | Hne]; [lia |].
  assert (n < length lines)%nat as Hlt by lia.
  specialize (Hstop Hlt).
  assert (~ (Z.of_nat (S n) <= cap)%Z) as Hcap.
  { intros H. apply Htest in H. congruence. }
  lia.
Qed.

Lemma half_nonneg (a : Q) : 0 <= a / 2 <-> 0 <= a.
Proof.
  assert (a / 2 * 2 == a) as Ha by field.
  split; intros H; [nra |].
  apply Qle_shift_div_l; [reflexivity | lra].
Qed.

End RendererExact.

(** X8 (how many lines fit). In exact arithmetic the renderer draws the
    first [min (number of wrapped lines) cap] lines and no other, where
    [cap] is the floor of [(PAGE_H - 2 * MARGIN) / line_height], that is of
    [(PAGE_H - 72) / 13] (0 when that is negative): the count depends on
    the number of lines only, never on their content, on the label or on
    the size of the graphic. *)
Theorem top_text_capacity_exact (L : Platform Q)
    (top_text label_text : str) (barcode_w_pt barcode_h_pt : Q) :
  let PyFloat_Q := rounded exact in
  let lines := wrapped_lines L top_text in
  let n := Nat.min (length lines) (text_capacity L) in
  draw_lines top_line_height (top_y_text L) lines
  = imap (fun i line =>
            DrawString (of_int MARGIN)
              (baseline top_line_height (top_y_text L) (S i)) line)
         (firstn n lines)
  /\ length (fst (draw_base_canvas L top_text label_text
                    barcode_w_pt barcode_h_pt)) = 3 + n.
Proof.
  intros PyFloat_Q lines n.
  destruct (draw_lines_spec top_line_height (top_y_text L) lines)
    as (m & Hm & Hdraw & Hok & Hstop).
  assert (m = n) as -> by (apply (drawn_count L lines m Hm Hok Hstop)).
  split; [exact Hdraw |].
  unfold draw_base_canvas. cbn [TOP_TEXT_FONT fst snd].
  fold lines. change (fmul (of_int 10) (of_lit (13 # 10)))
    with (@top_line_height Q PyFloat_Q).
  change (fsub (PAGE_H L) (of_int MARGIN)) with (top_y_text L).
  rewrite Hdraw. rewrite !length_app, length_imap, length_firstn.
  simpl length. unfold n. lia.
Qed.

(** On reportlab's A4 page the capacity is 59 lines. *)
Example text_capacity_A4 :
  text_capacity (@sim Q (rounded exact) false) = 59.
Proof. vm_compute. reflexivity. Qed.

(* ===================================================================== *)
(** ** Where the graphic and the label fall, in rounded arithmetic *)
(* ===================================================================== *)

Section RoundedFit.

Local Open Scope Q_scope.

Variable r : rounding.
Hypothesis Hr : standard_model r.
Hypothesis Hlt : eps r < 1.

(** A rounding keeps the sign. *)
Lemma rnd_nonneg q : 0 <= rnd r q <-> 0 <= q.
Proof.
  pose proof (rnd_bounds r Hr q) as Hb.
  pose proof (eps_nonneg r Hr) as HE.
  set (e := eps r) in *. set (v := rnd r q) in *. clearbody e v.
  destruct (Qlt_le_dec q 0) as [Hq | Hq].
  - rewrite Qabs_neg in Hb by lra. split; intros Hv; nra.
  - rewrite Qabs_pos in Hb by lra. split; intros Hv; nra.
Qed.

Lemma rnd_14 : rnd r 14 == 14.
Proof. apply (rnd_int r Hr 14). vm_compute. discriminate. Qed.

(** The origin on one axis is on the page exactly when the placed length
    is at most the page length. *)
Lemma origin_nonneg (page_len placed : Q) :
  0 <= rnd r (rnd r (page_len - placed) / rnd r 2) <-> placed <= page_len.
Proof.
  rewrite rnd_nonneg, (rnd_2 r Hr), half_nonneg, rnd_nonneg.
  split; intros Hv; lra.
Qed.

Lemma mul_between (a lo hi k : Q) :
  0 <= k -> lo <= a <= hi -> lo * k <= a * k <= hi * k.
Proof. intros Hk [H1 H2]. split; nra. Qed.

(** The placed length of a source length [len], multiplied by the source
    width, is [360 * len] up to the two roundings of the scale and of the
    product. *)
Lemma placed_length_bounds (bc_w len : Q) :
  0 < bc_w -> 0 < len ->
  360 * len * ((1 - eps r) * (1 - eps r))
  <= rnd r (len * rnd r (rnd r 360 / bc_w)) * bc_w
  <= 360 * len * ((1 + eps r) * (1 + eps r)).
Proof.
  intros Hw Hl.
  pose proof (eps_nonneg r Hr) as HE.
  pose proof (rnd_360 r Hr) as Hc.
  set (c := rnd r 360) in *.
  assert (c / bc_w * bc_w == c) as Hd
    by (field; intros Hz; rewrite Hz in Hw; discriminate).
  set (d := c / bc_w) in *.
  assert (0 < d) as Hdpos by nra.
  pose proof (rnd_bounds r Hr d) as Hs.
  rewrite (Qabs_pos d) in Hs by lra.
  set (s := rnd r d) in *.
  assert (d * (1 - eps r) <= s <= d * (1 + eps r)) as Hs' by (split; lra).
  apply (mul_between _ _ _ bc_w (Qlt_le_weak _ _ Hw)) in Hs'.
  assert (d * (1 - eps r) * bc_w == 360 * (1 - eps r)) as E1.
  { assert (d * (1 - eps r) * bc_w == d * bc_w * (1 - eps r)) as E by ring.
    rewrite E, Hd, Hc. reflexivity. }
  assert (d * (1 + eps r) * bc_w == 360 * (1 + eps r)) as E2.
  { assert (d * (1 + eps r) * bc_w == d * bc_w * (1 + eps r)) as E by ring.
    rewrite E, Hd, Hc. reflexivity. }
  rewrite E1, E2 in Hs'. clear E1 E2.
  assert (0 < s) as Hspos by nra.
  pose proof (rnd_bounds r Hr (len * s)) as Hh.
  rewrite (Qabs_pos (len * s)) in Hh by nra.
  set (h := rnd r (len * s)) in *.
  assert (len * s * (1 - eps r) <= h <= len * s * (1 + eps r)) as Hh'
    by (split; lra).
  apply (mul_between _ _ _ bc_w (Qlt_le_weak _ _ Hw)) in Hh'.
  assert (forall k, len * s * k * bc_w == len * k * (s * bc_w)) as E
    by (intros k; ring).
  rewrite !E in Hh'. clear E.
  set (sb := s * bc_w) in *. set (hb := h * bc_w) in *.
  set (e := eps r) in *.
  clearbody hb sb e. clear Hh Hs Hd Hdpos Hspos.
  assert (0 <= len * (1 - e)) as Hp1 by nra.
  assert (0 <= len * (1 + e)) as Hp2 by nra.
  split; nra.
Qed.

End RoundedFit.

(** X9 (nothing keeps the graphic or the label on the page). In rounded
    arithmetic with relative error at most [eps < 1] (the standard model of
    floating point: no overflow, no underflow), for a source page of
    positive width and height, with [w] and [h] the placed size the
    compositor computes and [(x, y)] the origin the renderer returns: the
    left edge is on the page ([0 <= x]) exactly when [w <= PAGE_W]; the
    lower edge is on the page ([0 <= y]) exactly when [h <= PAGE_H]; the
    label's baseline [ly] is on the page exactly when [14 <= y]. The
    placed size is the ideal one up to two roundings:
    [360 (1 - eps)^2 <= w <= 360 (1 + eps)^2] and
    [360 bc_h (1 - eps)^2 <= h bc_w <= 360 bc_h (1 + eps)^2]. So a source
    with [360 bc_h (1 + eps)^2 <= PAGE_H bc_w] keeps its lower edge on the
    page, and a source with [PAGE_H bc_w < 360 bc_h (1 - eps)^2] is placed
    and labelled below the bottom of the page: no step clamps. *)
Theorem vertical_fit_rounded (r : rounding) (Hr : standard_model r)
    (L : Platform Q) (top_text label_text : str) (bc_w bc_h : Q) :
  (eps r < 1)%Q -> (0 < bc_w)%Q -> (0 < bc_h)%Q ->
  exists scale w h c x y lx ly,
    @scale_to_target Q (rounded r) bc_w bc_h = OK (scale, w, h)
    /\ @draw_base_canvas Q (rounded r) L top_text label_text w h
       = (c, (x, y))
    /\ last c = Some (DrawCentredString lx ly label_text)
    /\ (0 <= x <-> w <= PAGE_W L)%Q
    /\ (0 <= y <-> h <= PAGE_H L)%Q
    /\ (0 <= ly <-> 14 <= y)%Q
    /\ (360 * ((1 - eps r) * (1 - eps r)) <= w
        <= 360 * ((1 + eps r) * (1 + eps r)))%Q
    /\ (360 * bc_h * ((1 - eps r) * (1 - eps r)) <= h * bc_w
        <= 360 * bc_h * ((1 + eps r) * (1 + eps r)))%Q
    /\ (360 * bc_h * ((1 + eps r) * (1 + eps r)) <= PAGE_H L * bc_w
        -> 0 <= y)%Q
    /\ (PAGE_H L * bc_w < 360 * bc_h * ((1 - eps r) * (1 - eps r))
        -> y < 0 /\ ly < 0)%Q.
Proof.
  intros He Hw Hh.
  eexists _, _, _, _, _, _, _, _.
  split; [exact (scale_to_target_rounded r bc_w bc_h Hw) |].
  split; [reflexivity |]. split.
  { cbn [TOP_TEXT_FONT]. rewrite app_assoc.
    change [SetFont (fst LABEL_FONT) (snd LABEL_FONT);
            DrawCentredString ?a ?b ?c]
      with ([SetFont (fst LABEL_FONT) (snd LABEL_FONT)]
            ++ [DrawCentredString a b c]).
    rewrite app_assoc. apply last_snoc. }
  cbn [fdiv fsub fmul of_lit rounded GAP_BARCODE_LABEL].
  pose proof (placed_length_bounds r Hr He bc_w bc_w Hw Hw) as Bw.
  pose proof (placed_length_bounds r Hr He bc_w bc_h Hw Hh) as Bh.
  pose proof (origin_nonneg r Hr He (PAGE_W L)
                (rnd r (bc_w * rnd r (rnd r 360 / bc_w)))) as Ox.
  pose proof (origin_nonneg r Hr He (PAGE_H L)
                (rnd r (bc_h * rnd r (rnd r 360 / bc_w)))) as Oy.
  set (w := rnd r (bc_w * rnd r (rnd r 360 / bc_w))) in *.
  set (h := rnd r (bc_h * rnd r (rnd r 360 / bc_w))) in *.
  set (x := rnd r (rnd r (PAGE_W L - w) / rnd r 2)) in *.
  set (y := rnd r (rnd r (PAGE_H L - h) / rnd r 2)) in *.
  assert (0 <= rnd r (y - rnd r 14) <-> 14 <= y)%Q as Ol.
  { rewrite (rnd_nonneg r Hr He), (rnd_14 r Hr). split; intros Hv; lra. }
  set (ly := rnd r (y - rnd r 14)) in *.
  set (pw := PAGE_W L) in *. set (ph := PAGE_H L) in *.
  set (e := eps r) in *.
  clearbody w h x y ly pw ph e.
  split; [exact Ox |]. split; [exact Oy |]. split; [exact Ol |].
  split; [split; nra |]. split; [exact Bh |].
  split.
  - intros Hfit. apply Oy. nra.
  - intros Htall.
    assert (y < 0)%Q as Hy.
    { apply Qnot_le_lt. intros Hy. apply Oy in Hy. nra. }
    split; [exact Hy |].
    apply Qnot_le_lt. intros Hl. apply Ol in Hl. lra.
Qed.

Lemma vertical_fit_rounded_witness :
  let L := @sim Q (rounded binary53) false in
  exists scale w h c x y lx ly,
    @scale_to_target Q (rounded binary53) 100%Q 300%Q = OK (scale, w, h)
    /\ @draw_base_canvas Q (rounded binary53) L lot42_text (lit "Lot 42") w h
       = (c, (x, y))
    /\ last c = Some (DrawCentredString lx ly (lit "Lot 42"))
    /\ (0 <= x <-> w <= PAGE_W L)%Q
    /\ (0 <= y <-> h <= PAGE_H L)%Q
    /\ (0 <= ly <-> 14 <= y)%Q
    /\ (360 * ((1 - eps binary53) * (1 - eps binary53)) <= w
        <= 360 * ((1 + eps binary53) * (1 + eps binary53)))%Q
    /\ (360 * 300 * ((1 - eps binary53) * (1 - eps binary53)) <= h * 100
        <= 360 * 300 * ((1 + eps binary53) * (1 + eps binary53)))%Q
    /\ (360 * 300 * ((1 + eps binary53) * (1 + eps binary53))
        <= PAGE_H L * 100 -> 0 <= y)%Q
    /\ (PAGE_H L * 100
        < 360 * 300 * ((1 - eps binary53) * (1 - eps binary53))
        -> y < 0 /\ ly < 0)%Q.
Proof.
  intros L.
  apply (vertical_fit_rounded binary53 binary53_standard L lot42_text
           (lit "Lot 42") 100%Q 300%Q); reflexivity.
Defined.

(** A source page of 100 by 300 points on A4: placed 1080 points high,
    its lower edge and its label are below the page. *)
Example tall_source_below_page :
  let L := @sim Q (rounded exact) false in
  let '(c, (x, y)) :=
    @draw_base_canvas Q (rounded exact) L lot42_text (lit "Lot 42")
      360%Q 1080%Q in
  (y < 0)%Q
  /\ exists lx ly, last c = Some (DrawCentredString lx ly (lit "Lot 42"))
                   /\ (ly < 0)%Q.
Proof.
  vm_compute. split; [reflexivity |]. eexists _, _. split; reflexivity.
Qed.

(** The same source in binary64, and the source page of 39 by 80 points
    whose placed width is just below 360: the first is placed and labelled
    below the page, the second is on the page, as the signs of the computed
    numbers say. *)
Example source_fit_binary64 :
  let L := @sim _ binary64 false in
  let fit (bc_w bc_h : PrimFloat.float) : option (bool * bool * bool) :=
    match scale_to_target bc_w bc_h with
    | OK (_, w, h) =>
        let '(c, (x, y)) :=
          draw_base_canvas L lot42_text (lit "Lot 42") w h in
        match last c with
        | Some (DrawCentredString _ ly _) =>
            Some (flt x (of_int 0), flt y (of_int 0), flt ly (of_int 0))
        | _ => None
        end
    | Raise _ => None
    end in
  fit (of_int 100) (of_int 300) = Some (false, true, true)
  /\ fit (of_int 39) (of_int 80) = Some (false, false, false).
Proof. vm_compute. split; reflexivity. Qed.

Lemma flat_map_at_least_one {A B : Type} (f : A -> list B) (l : list A) :
  (forall a, 1 <= length (f a)) -> length l <= length (flat_map f l).
Proof.
  intros Hf. induction l as [|a l IH]; simpl; [lia |].
  rewrite length_app. specialize (Hf a). lia.
Qed.

(** X10 (every paragraph takes a line). The wrapped lines are at least as
    many as the paragraphs of the text, and at least one: a paragraph that
    is empty, or that the word wrap answers with no line, still takes one
    line of the page. *)
Theorem wrapped_lines_per_paragraph {F : Type} `{PyFloat F}
    (L : Platform F) (top_text : str) :
  Nat.max 1 (length (splitlines top_text))
  <= length (wrapped_lines L top_text).
Proof.
  unfold wrapped_lines. cbn [TOP_TEXT_FONT].
  destruct (splitlines top_text) as [|p ps] eqn:E.
  - etransitivity; [| apply flat_map_at_least_one].
    + simpl. apply le_n.
    + intros a. destruct (simpleSplit L _ _ _ _); simpl; lia.
  - etransitivity; [| apply flat_map_at_least_one].
    + simpl. apply le_n.
    + intros a. destruct (simpleSplit L _ _ _ _); simpl; lia.
Qed.

(* ===================================================================== *)
(** ** The compositor: inputs, errors and effects *)
(* ===================================================================== *)

(** A point under [Transformation().scale(s).translate(tx, ty)]: the
    builder calls act in the order in which they are written. *)
Definition apply_xform (t : xform Q) (p : Q * Q) : Q * Q :=
  match t with
  | Scale s => (s * fst p, s * snd p)%Q
  | Translate tx ty => (fst p + tx, snd p + ty)%Q
  end.

Definition apply_transformation (t : Transformation Q) (p : Q * Q) : Q * Q :=
  fold_left (fun q x => apply_xform x q) t p.

Section ComposeMore.

Context {F : Type} `{PyFloat F} (L : Platform F).

Implicit Types (w : world L) (e : exn).

(** The exception for a path that holds no regular file. *)
Definition no_file_error w (p : str) : exn :=
  if bool_decide (p ∈ dirs w) then IsADirectoryError p
  else FileNotFoundError p.

Lemma read_bytes_None p w :
  files w !! p = None -> read_bytes L p w = (Raise (no_file_error w p), w).
Proof.
  intros Hnone. unfold read_bytes, no_file_error. rewrite Hnone.
  destruct (bool_decide (p ∈ dirs w)); reflexivity.
Qed.

Lemma read_bytes_Some p w b :
  files w !! p = Some b -> read_bytes L p w = (OK b, w).
Proof. intros Hb. unfold read_bytes. rewrite Hb. reflexivity. Qed.

(** Everything a successful first stage went through. *)
Lemma composed_page_inv barcode_pdf_path txt_path label_text w final w' :
  composed_page L barcode_pdf_path txt_path label_text w = (OK final, w') ->
  exists tb b bc_page pages base_page base_rest,
    let bc_w := fst (mediabox bc_page) in
    let bc_h := snd (mediabox bc_page) in
    let scale := fdiv BARCODE_TARGET_W bc_w in
    let c_xy :=
      draw_base_canvas L (decode_utf8_replace L tb) label_text
        (fmul bc_w scale) (fmul bc_h scale) in
    w' = w
    /\ files w !! txt_path = Some tb
    /\ files w !! barcode_pdf_path = Some b
    /\ PdfReader L b = OK (bc_page :: pages)
    /\ fis_zero bc_w = false
    /\ PdfReader L (canvas_save L (A4 L) (fst c_xy))
       = OK (base_page :: base_rest)
    /\ merge_transformed_page L base_page bc_page
         [Scale scale; Translate (fst (snd c_xy)) (snd (snd c_xy))]
       = OK final.
Proof.
  intros Hrun.
  pose proof (composed_page_frame L _ _ _ _ _ _ Hrun) as ->.
  revert Hrun. unfold composed_page, bind, lift, read_text, bind, ret.
  destruct (files w !! txt_path) as [tb|] eqn:Et;
    [rewrite (read_bytes_Some _ _ _ Et)
    | rewrite (read_bytes_None _ _ Et); discriminate].
  destruct (files w !! barcode_pdf_path) as [b|] eqn:Eb;
    [rewrite (read_bytes_Some _ _ _ Eb)
    | rewrite (read_bytes_None _ _ Eb); discriminate].
  destruct (PdfReader L b) as [[|bc_page pages]|e] eqn:Er;
    cbn [first_page]; [discriminate | | discriminate].
  unfold scale_to_target, truediv.
  destruct (fis_zero (fst (mediabox bc_page))) eqn:Ez; [discriminate |].
  cbn [draw_base_a4_with_text_and_label draw_base_canvas TOP_TEXT_FONT].
  destruct (PdfReader L (canvas_save L (A4 L) _))
    as [[|base_page base_rest]|e] eqn:Er2;
    cbn [first_page]; [discriminate | | discriminate].
  intros Hm.
  exists tb, b, bc_page, pages, base_page, base_rest. cbv zeta.
  cbn [draw_base_canvas TOP_TEXT_FONT fst snd].
  repeat split; try assumption; try reflexivity.
  congruence.
Qed.

(** Whatever the outcome, only the output path can change. *)
Lemma compose_final_pdf_frame barcode_pdf_path txt_path label_text out_dir
    w (r : result str) w' :
  compose_final_pdf L barcode_pdf_path txt_path label_text out_dir w
  = (r, w') ->
  dirs w' = dirs w
  /\ forall p, p <> output_path L barcode_pdf_path label_text out_dir ->
       files w' !! p = files w !! p.
Proof.
  rewrite compose_final_pdf_stages. unfold bind at 1.
  destruct (composed_page L _ _ _ w) as [[final|e0] w1] eqn:E1;
    pose proof (composed_page_frame L _ _ _ _ _ _ E1); subst w1;
    [| intros [= <- <-]; split; reflexivity].
  cbv zeta. unfold bind, open_wb, write_close, ret. cbn [files dirs].
  destruct (open_fault L (files w) _) as [e1|];
    [intros [= <- <-]; split; reflexivity |].
  destruct (write_fault L _ _ _) as [[e2 rest]|];
    intros [= <- <-]; cbn [files dirs]; (split; [reflexivity |]);
    intros p Hp; rewrite !lookup_insert_ne by congruence; reflexivity.
Qed.

End ComposeMore.

(** X11 (a run touches the output path only). Whatever the outcome of
    [compose_final_pdf], success or exception, no directory is created or
    removed and every file other than the one at the output path is left
    as it was; the two input files are among them unless the output path
    is one of their paths. *)
Theorem compose_changes_output_path_only {F : Type} `{PyFloat F}
    (L : Platform F) (barcode_pdf_path txt_path label_text : str)
    (out_dir : option str) (w : world L) :
  let run :=
    compose_final_pdf L barcode_pdf_path txt_path label_text out_dir w in
  dirs (snd run) = dirs w
  /\ forall p, p <> output_path L barcode_pdf_path label_text out_dir ->
       files (snd run) !! p = files w !! p.
Proof.
  intros run.
  apply (compose_final_pdf_frame L barcode_pdf_path txt_path label_text
           out_dir w (fst run) (snd run)).
  apply surjective_pairing.
Qed.

(** X12 (what a successful run did). When [compose_final_pdf] returns a
    path, that path is [target_dir / (sanitize_filename(label) + ".pdf")]
    with the parent of the source as the default directory; both input
    files existed; the source had a first page of non-zero width; and the
    file at the path now holds the writer's bytes for exactly one page, the
    result of the merge, in place of whatever was there before. *)
Theorem compose_success {F : Type} `{PyFloat F}
    (L : Platform F) (barcode_pdf_path txt_path label_text : str)
    (out_dir : option str) (w w' : world L) (out_path : str) :
  compose_final_pdf L barcode_pdf_path txt_path label_text out_dir w
  = (OK out_path, w') ->
  out_path
  = path_join L
      (match out_dir with
       | Some d => d
       | None => path_parent L barcode_pdf_path
       end)
      (sanitize_filename label_text ++ lit ".pdf")
  /\ is_Some (files w !! txt_path)
  /\ (exists b bc_page pages,
        files w !! barcode_pdf_path = Some b
        /\ PdfReader L b = OK (bc_page :: pages)
        /\ fis_zero (fst (mediabox bc_page)) = false)
  /\ exists final,
       composed_page L barcode_pdf_path txt_path label_text w = (OK final, w)
       /\ files w' = <[out_path := PdfWriter_write L [final]]> (files w).
Proof.
  rewrite compose_final_pdf_stages. unfold bind at 1.
  destruct (composed_page L _ _ _ w) as [[final|e0] w1] eqn:E1;
    [| discriminate].
  pose proof (composed_page_inv L _ _ _ _ _ _ E1)
    as (tb & b & bc_page & pages & base_page & base_rest & Hinv).
  cbv zeta in Hinv.
  destruct Hinv as (-> & Ht & Hb & Hr & Hz & _ & _).
  cbv zeta. unfold bind, open_wb, write_close, ret. cbn [files dirs].
  destruct (open_fault L (files w) _) as [e1|]; [discriminate |].
  destruct (write_fault L _ _ _) as [[e2 rest]|]; [discriminate |].
  intros [= <- <-]. cbn [files].
  split; [reflexivity |]. split; [eexists; exact Ht |].
  split; [exists b, bc_page, pages; repeat split; assumption |].
  exists final. split; [reflexivity |]. apply insert_insert_eq.
Qed.

Lemma compose_success_witness :
  let L := @sim _ binary64 false in
  let w := lot42_world false in
  let w' :=
    snd (compose_final_pdf L (lit "/in/bc.pdf") (lit "/in/top.txt")
           (lit "Lot 42") None w) in
  let out_path := lit "/in/Lot 42.pdf" in
  out_path
  = path_join L (path_parent L (lit "/in/bc.pdf"))
      (sanitize_filename (lit "Lot 42") ++ lit ".pdf")
  /\ is_Some (files w !! lit "/in/top.txt")
  /\ (exists b bc_page pages,
        files w !! lit "/in/bc.pdf" = Some b
        /\ PdfReader L b = OK (bc_page :: pages)
        /\ fis_zero (fst (mediabox bc_page)) = false)
  /\ exists final,
       composed_page L (lit "/in/bc.pdf") (lit "/in/top.txt") (lit "Lot 42") w
       = (OK final, w)
       /\ files w' = <[out_path := PdfWriter_write L [final]]> (files w).
Proof.
  intros L w w' out_path.
  apply (compose_success L (lit "/in/bc.pdf") (lit "/in/top.txt")
           (lit "Lot 42") None w w' out_path).
  apply run_result. vm_compute. reflexivity.
Defined.

(** X13 (the text file is read first). When the text path holds no
    regular file, the run fails with the error for that path
    ([IsADirectoryError] for a directory, [FileNotFoundError] otherwise)
    and leaves the file system as it was, whatever the source PDF, the
    label and the output directory are: the source is not even opened. *)
Theorem compose_text_read_first {F : Type} `{PyFloat F}
    (L : Platform F) (barcode_pdf_path txt_path label_text : str)
    (out_dir : option str) (w : world L) :
  files w !! txt_path = None ->
  compose_final_pdf L barcode_pdf_path txt_path label_text out_dir w
  = (Raise (if bool_decide (txt_path ∈ dirs w)
            then IsADirectoryError txt_path
            else FileNotFoundError txt_path), w).
Proof.
  intros Hnone. unfold compose_final_pdf, bind at 1, read_text, bind.
  rewrite (read_bytes_None L _ _ Hnone). reflexivity.
Qed.

Lemma compose_text_read_first_witness :
  let L := @sim _ binary64 false in
  let w := lot42_world false in
  compose_final_pdf L (lit "/nowhere.pdf") (lit "/in") (lit "Lot 42") None w
  = (Raise (if bool_decide (lit "/in" ∈ dirs w)
            then IsADirectoryError (lit "/in")
            else FileNotFoundError (lit "/in")), w).
Proof.
  intros L w.
  apply (compose_text_read_first L (lit "/nowhere.pdf") (lit "/in")
           (lit "Lot 42") None w).
  vm_compute. reflexivity.
Defined.

(** X14 (a source that cannot be scaled). With the text file in place:
    a source path without a regular file fails with the error for that
    path; a source the reader rejects fails with the reader's exception; a
    source without pages fails with [IndexError]; a first page of width
    zero fails with [ZeroDivisionError]. In all four cases nothing has
    been rendered, merged or written and the file system is as it was. *)
Theorem compose_source_errors {F : Type} `{PyFloat F}
    (L : Platform F) (barcode_pdf_path txt_path label_text : str)
    (out_dir : option str) (w : world L) (tb : Bytes L) :
  files w !! txt_path = Some tb ->
  let run :=
    compose_final_pdf L barcode_pdf_path txt_path label_text out_dir w in
  match files w !! barcode_pdf_path with
  | None =>
      run = (Raise (if bool_decide (barcode_pdf_path ∈ dirs w)
                    then IsADirectoryError barcode_pdf_path
                    else FileNotFoundError barcode_pdf_path), w)
  | Some b =>
      match PdfReader L b with
      | Raise e => run = (Raise e, w)
      | OK [] => run = (Raise IndexError, w)
      | OK (bc_page :: _) =>
          fis_zero (fst (mediabox bc_page)) = true ->
          run = (Raise ZeroDivisionError, w)
      end
  end.
Proof.
  intros Ht run. unfold run, compose_final_pdf, bind at 1, read_text, bind.
  rewrite (read_bytes_Some L _ _ _ Ht). unfold ret, lift.
  destruct (files w !! barcode_pdf_path) as [b|] eqn:Eb.
  - rewrite (read_bytes_Some L _ _ _ Eb).
    destruct (PdfReader L b) as [[|bc_page pages]|e]; cbn [first_page];
      try reflexivity.
    intros Hz. unfold scale_to_target, truediv. rewrite Hz. reflexivity.
  - rewrite (read_bytes_None L _ _ Eb). reflexivity.
Qed.

Lemma compose_source_errors_witness :
  let L := @sim _ binary64 false in
  let w : world L :=
    World (<[lit "/in/flat.pdf" :=
               PdfBlob [Page (of_int 0, of_int 80) []]]>
             (files (lot42_world false)))
          (dirs (lot42_world false)) in
  compose_final_pdf L (lit "/in/flat.pdf") (lit "/in/top.txt")
    (lit "Lot 42") None w
  = (Raise ZeroDivisionError, w).
Proof.
  intros L w.
  pose proof (compose_source_errors L (lit "/in/flat.pdf")
                (lit "/in/top.txt") (lit "Lot 42") None w
                (TextBlob lot42_text)) as Hthm.
  cbv zeta in Hthm.
  destruct (files w !! lit "/in/flat.pdf") as [b|] eqn:Eb.
  - vm_compute in Eb. injection Eb as <-.
    apply Hthm; vm_compute; reflexivity.
  - vm_compute in Eb. discriminate.
Defined.

Section RoundedPlacement.

Local Open Scope Q_scope.

Variable r : rounding.
Hypothesis Hr : standard_model r.

(** The scale times the source width is the target width up to one
    rounding, for any non-zero source width. *)
Lemma scaled_width_bound (bc_w : Q) :
  ~ bc_w == 0 ->
  Qabs (rnd r (rnd r 360 / bc_w) * bc_w - 360) <= 360 * eps r.
Proof.
  intros Hz.
  pose proof (rnd_360 r Hr) as Hc.
  set (c := rnd r 360) in *.
  assert (c / bc_w * bc_w == c) as Hd by (field; exact Hz).
  pose proof (rnd_error r Hr (c / bc_w)) as Hs.
  set (d := c / bc_w) in *. set (s := rnd r d) in *.
  assert (s * bc_w - 360 == (s - d) * bc_w) as E1.
  { assert ((s - d) * bc_w == s * bc_w - d * bc_w) as E by ring.
    rewrite E, Hd, Hc. reflexivity. }
  assert (360 * eps r == eps r * Qabs d * Qabs bc_w) as E2.
  { rewrite <- Qmult_assoc, <- Qabs_Qmult, Hd, Hc.
    change (Qabs 360) with 360. ring. }
  rewrite E1, E2, Qabs_Qmult.
  apply Qmult_le_compat_r; [exact Hs | apply Qabs_nonneg].
Qed.

(** The two ends of the placed interval on one axis add up to the page
    length, up to the roundings of the placed length and of the origin. *)
Lemma placed_ends_bound (page_len len s : Q) :
  let placed := rnd r (len * s) in
  let x := rnd r (rnd r (page_len - placed) / rnd r 2) in
  Qabs (s * 0 + x + (s * len + x) - page_len)
  <= eps r * (2 + eps r) * Qabs (page_len - placed)
     + eps r * Qabs (len * s).
Proof.
  intros placed x.
  pose proof (placement_bound r Hr page_len placed) as Hx. fold x in Hx.
  pose proof (rnd_error r Hr (len * s)) as Hp. fold placed in Hp.
  assert (eps r * (2 + eps r) * Qabs (page_len - placed)
          == 2 * (eps r * (1 + eps r / 2) * Qabs (page_len - placed))) as E
    by field.
  rewrite E. clear E.
  set (B1 := eps r * (1 + eps r / 2) * Qabs (page_len - placed)) in *.
  set (B2 := eps r * Qabs (len * s)) in *.
  apply Qabs_Qle_condition in Hx. apply Qabs_Qle_condition in Hp.
  assert (x + placed / 2 - page_len / 2
          == x + placed * (1 # 2) - page_len * (1 # 2)) as E by field.
  rewrite E in Hx. clear E.
  assert (s * 0 + x + (s * len + x) - page_len
          == 2 * (x + placed * (1 # 2) - page_len * (1 # 2))
             - (placed - len * s)) as E by ring.
  rewrite E. clear E.
  set (u := x + placed * (1 # 2) - page_len * (1 # 2)) in *.
  set (v := placed - len * s) in *.
  clearbody B1 B2 u v.
  apply Qabs_Qle_condition. split; lra.
Qed.

End RoundedPlacement.

(** X15 (where the transformation puts the source page). In rounded
    arithmetic with relative error at most [eps] (the standard model of
    floating point: no overflow, no underflow), when the first stage of a
    run succeeds, the source's first page was merged under the
    transformation [scale] then [translate (x, y)], with the scale and the
    placed size [scale_to_target] computes from the source's box and the
    origin the renderer returns for that size. It sends the corners
    [(0, 0)] and [(bc_w, bc_h)] of the source's box to the corners of a box
    whose width differs from 360 by at most [360 * eps], of the same aspect
    ratio as the source, and centred on the page up to rounding: on each
    axis the two corners add up to the page length within
    [eps * (2 + eps) * |page length - placed length|
     + eps * |source length * scale|]. This holds for any non-zero source
    width, a negative one included; with [eps = 0] the box is exactly 360
    wide and exactly centred. *)
Theorem placement_transformation_rounded (r : rounding)
    (Hr : standard_model r) (L : Platform Q)
    (barcode_pdf_path txt_path label_text : str) (w w' : world L)
    (final : page Q) :
  @composed_page Q (rounded r) L barcode_pdf_path txt_path label_text w
  = (OK final, w') ->
  exists tb b bc_page pages base_page scale w_pt h_pt x y,
    files w !! txt_path = Some tb
    /\ files w !! barcode_pdf_path = Some b
    /\ PdfReader L b = OK (bc_page :: pages)
    /\ let bc_w := fst (mediabox bc_page) in
       let bc_h := snd (mediabox bc_page) in
       let t := [Scale scale; Translate x y] in
       let lo := apply_transformation t (0, 0)%Q in
       let hi := apply_transformation t (bc_w, bc_h) in
       @scale_to_target Q (rounded r) bc_w bc_h = OK (scale, w_pt, h_pt)
       /\ snd (@draw_base_canvas Q (rounded r) L (decode_utf8_replace L tb)
                 label_text w_pt h_pt) = (x, y)
       /\ merge_transformed_page L base_page bc_page t = OK final
       /\ (Qabs (fst hi - fst lo - 360) <= 360 * eps r)%Q
       /\ ((snd hi - snd lo) * bc_w == (fst hi - fst lo) * bc_h)%Q
       /\ (Qabs (fst lo + fst hi - PAGE_W L)
           <= eps r * (2 + eps r) * Qabs (PAGE_W L - w_pt)
              + eps r * Qabs (bc_w * scale))%Q
       /\ (Qabs (snd lo + snd hi - PAGE_H L)
           <= eps r * (2 + eps r) * Qabs (PAGE_H L - h_pt)
              + eps r * Qabs (bc_h * scale))%Q.
Proof.
  intros Hrun.
  destruct (@composed_page_inv Q (rounded r) L _ _ _ _ _ _ Hrun)
    as (tb & b & bc_page & pages & base_page & base_rest & Hinv).
  cbv zeta in Hinv.
  destruct Hinv as (_ & Ht & Hb & Hrd & Hz & _ & Hm).
  eexists tb, b, bc_page, pages, base_page, _, _, _, _, _.
  split; [exact Ht |]. split; [exact Hb |]. split; [exact Hrd |].
  cbv zeta.
  split; [unfold scale_to_target, truediv; rewrite Hz; reflexivity |].
  split; [reflexivity |]. split; [exact Hm |].
  cbn [fis_zero rounded] in Hz. apply Qeq_bool_neq in Hz.
  cbn [apply_transformation fold_left apply_xform fst snd draw_base_canvas
       TOP_TEXT_FONT fdiv fsub fmul of_lit rounded BARCODE_TARGET_W].
  set (bc_w := fst (mediabox bc_page)) in *.
  set (bc_h := snd (mediabox bc_page)) in *.
  split.
  { pose proof (scaled_width_bound r Hr bc_w Hz) as Hs.
    set (s := rnd r (rnd r 360 / bc_w)) in *.
    set (x := rnd r (rnd r (PAGE_W L - rnd r (bc_w * s)) / rnd r 2)).
    assert (s * bc_w + x - (s * 0 + x) - 360 == s * bc_w - 360)%Q as E
      by ring.
    rewrite E. exact Hs. }
  split; [ring |].
  split; apply (placed_ends_bound r Hr).
Qed.

Lemma placement_transformation_rounded_witness :
  let L := @sim Q (rounded binary53) false in
  let w := @lot42_world Q (rounded binary53) false in
  let run :=
    @composed_page Q (rounded binary53) L (lit "/in/bc.pdf")
      (lit "/in/top.txt") (lit "Lot 42") w in
  exists final tb b bc_page pages base_page scale w_pt h_pt x y,
    fst run = OK final
    /\ files w !! lit "/in/top.txt" = Some tb
    /\ files w !! lit "/in/bc.pdf" = Some b
    /\ PdfReader L b = OK (bc_page :: pages)
    /\ let bc_w := fst (mediabox bc_page) in
       let bc_h := snd (mediabox bc_page) in
       let t := [Scale scale; Translate x y] in
       let lo := apply_transformation t (0, 0)%Q in
       let hi := apply_transformation t (bc_w, bc_h) in
       @scale_to_target Q (rounded binary53) bc_w bc_h
       = OK (scale, w_pt, h_pt)
       /\ snd (@draw_base_canvas Q (rounded binary53) L
                 (decode_utf8_replace L tb) (lit "Lot 42") w_pt h_pt)
          = (x, y)
       /\ merge_transformed_page L base_page bc_page t = OK final
       /\ (Qabs (fst hi - fst lo - 360) <= 360 * eps binary53)%Q
       /\ ((snd hi - snd lo) * bc_w == (fst hi - fst lo) * bc_h)%Q
       /\ (Qabs (fst lo + fst hi - PAGE_W L)
           <= eps binary53 * (2 + eps binary53) * Qabs (PAGE_W L - w_pt)
              + eps binary53 * Qabs (bc_w * scale))%Q
       /\ (Qabs (snd lo + snd hi - PAGE_H L)
           <= eps binary53 * (2 + eps binary53) * Qabs (PAGE_H L - h_pt)
              + eps binary53 * Qabs (bc_h * scale))%Q.
Proof.
  intros L w run.
  destruct (fst run) as [final|e] eqn:Efst;
    [| vm_compute in Efst; discriminate].
  exists final.
  destruct (placement_transformation_rounded binary53 binary53_standard L
              (lit "/in/bc.pdf") (lit "/in/top.txt") (lit "Lot 42") w
              (snd run) final)
    as (tb & b & bc_page & pages & base_page & scale & w_pt & h_pt
        & x & y & Ht & Hb & Hrd & Hgeo).
  { fold run. rewrite <- Efst. apply surjective_pairing. }
  exists tb, b, bc_page, pages, base_page, scale, w_pt, h_pt, x, y.
  split; [reflexivity |]. split; [exact Ht |]. split; [exact Hb |].
  split; [exact Hrd | exact Hgeo].
Defined.

(** A source page 39 points wide: the scale the 53-bit rounding gives is
    the one binary64 gives, and 39 times it is not 360. *)
Example scaled_width_39 :
  let s := rnd binary53 (rnd binary53 360 / 39) in
  (s == to_Q (fdiv (of_lit 360) (of_int 39)))%Q
  /\ ~ (s * 39 == 360)%Q
  /\ (Qabs (s * 39 - 360) <= 360 * eps binary53)%Q.
Proof.
  cbv zeta. split; [vm_compute; reflexivity |].
  split; [intros Heq; vm_compute in Heq; discriminate |].
  vm_compute. discriminate.
Qed.

(* ===================================================================== *)
(** ** The window *)
(* ===================================================================== *)

(** *** App.pick_pdf, App.pick_txt, App.pick_out_dir

    [chosen] is what the file dialog returned: the empty string when the
    dialog was cancelled. *)
Definition pick_pdf (chosen : str) (app : App) : App :=
  if is_empty chosen then app
  else {| src_pdf := chosen; txt_file := txt_file app;
          out_dir_var := out_dir_var app; label_var := label_var app |}.

Definition pick_txt (chosen : str) (app : App) : App :=
  if is_empty chosen then app
  else {| src_pdf := src_pdf app; txt_file := chosen;
          out_dir_var := out_dir_var app; label_var := label_var app |}.

Definition pick_out_dir (chosen : str) (app : App) : App :=
  if is_empty chosen then app
  else {| src_pdf := src_pdf app; txt_file := txt_file app;
          out_dir_var := chosen; label_var := label_var app |}.

(** *** App.toggle_fullscreen, App.exit_fullscreen

    The window attribute [-fullscreen], and the two keys bound to it. *)
Definition toggle_fullscreen (fullscreen : bool) : bool := negb fullscreen.

Definition exit_fullscreen (fullscreen : bool) : bool := false.

Inductive key := F11 | Escape.

Definition press (fullscreen : bool) (k : key) : bool :=
  match k with
  | F11 => toggle_fullscreen fullscreen
  | Escape => exit_fullscreen fullscreen
  end.

(** A field with white space put before and after it. *)
Definition padded (s s' : str) : Prop :=
  exists u v,
    Forall (fun c => isspace c = true) u
    /\ Forall (fun c => isspace c = true) v
    /\ s' = u ++ s ++ v.

Section Window.

Context {F : Type} `{PyFloat F} (L : Platform F).

Lemma lstrip_spaces_app (u s : str) :
  Forall (fun c => isspace c = true) u -> lstrip (u ++ s) = lstrip s.
Proof.
  induction 1 as [|c u Hc _ IH]; [reflexivity |].
  simpl. rewrite Hc. exact IH.
Qed.

Lemma rstrip_app_spaces (s v : str) :
  Forall (fun c => isspace c = true) v -> rstrip (s ++ v) = rstrip s.
Proof.
  intros Hv. unfold rstrip. rewrite rev_app_distr.
  rewrite lstrip_spaces_app by (apply List.Forall_rev, Hv). reflexivity.
Qed.

Lemma strip_padded (s s' : str) : padded s s' -> strip s' = strip s.
Proof.
  intros (u & v & Hu & Hv & ->). unfold strip.
  rewrite (lstrip_spaces_app u _ Hu).
  destruct (lstrip_split s) as (u' & Es & Hu').
  rewrite Es at 1. rewrite <- app_assoc, (lstrip_spaces_app u' _ Hu').
  destruct (lstrip s) as [|c t] eqn:El.
  - simpl. rewrite <- (app_nil_r v), (lstrip_spaces_app v [] Hv).
    reflexivity.
  - pose proof (lstrip_head s c) as Hc. rewrite El in Hc.
    specialize (Hc eq_refl). simpl. rewrite Hc.
    apply (rstrip_app_spaces (c :: t) v Hv).
Qed.

End Window.

(** X16 (what each dialog means). The dialog [create_pdf] shows tells
    what happened. The source message: the source field is blank or names
    nothing that exists. The text message: the source passed and the text
    field is blank or names nothing that exists. The label message: both
    passed and the label is blank. In these three cases the file system is
    as it was. The failure and success messages: all three checks passed,
    [compose_final_pdf] ran on the stripped fields, with the stripped
    output directory or none when that field is blank, and raised the
    exception shown or returned the path shown. *)
Theorem create_pdf_dialog_meaning {F : Type} `{PyFloat F} (L : Platform F)
    (app : App) (w : world L) :
  let src := strip (src_pdf app) in
  let txt := strip (txt_file app) in
  let label := strip (label_var app) in
  let out_dir :=
    match strip (out_dir_var app) with [] => None | d => Some d end in
  let ok p := p <> [] /\ path_exists L w p = true in
  let w' := snd (create_pdf L app w) in
  match fst (create_pdf L app w) with
  | ErrInvalidPdf => w' = w /\ ~ ok src
  | ErrInvalidTxt => w' = w /\ ok src /\ ~ ok txt
  | ErrLabelRequired => w' = w /\ ok src /\ ok txt /\ label = []
  | ErrFailed e =>
      ok src /\ ok txt /\ label <> []
      /\ compose_final_pdf L src txt label out_dir w = (Raise e, w')
  | InfoCreated out_path =>
      ok src /\ ok txt /\ label <> []
      /\ compose_final_pdf L src txt label out_dir w = (OK out_path, w')
  end.
Proof.
  cbv zeta. unfold create_pdf.
  destruct (strip (src_pdf app)) as [|c s] eqn:Es; cbn [is_empty orb].
  { cbn [fst snd]. split; [reflexivity | intros [Hne _]; congruence]. }
  destruct (path_exists L w (c :: s)) eqn:Ps; cbn [negb fst snd].
  2:{ split; [reflexivity | intros [_ Hex]; congruence]. }
  destruct (strip (txt_file app)) as [|c' s'] eqn:Et; cbn [is_empty orb].
  { cbn [fst snd]. split; [reflexivity |]. split; [split; congruence |].
    intros [Hne _]; congruence. }
  destruct (path_exists L w (c' :: s')) eqn:Pt; cbn [negb fst snd].
  2:{ split; [reflexivity |]. split; [split; congruence |].
      intros [_ Hex]; congruence. }
  destruct (strip (label_var app)) as [|c'' s''] eqn:El; cbn [is_empty].
  { cbn [fst snd]. repeat split; congruence. }
  assert ((if is_empty (strip (out_dir_var app)) then None
           else Some (strip (out_dir_var app)))
          = match strip (out_dir_var app) with
            | [] => None
            | d :: ds => Some (d :: ds)
            end) as -> by (destruct (strip (out_dir_var app)); reflexivity).
  destruct (compose_final_pdf L (c :: s) (c' :: s') (c'' :: s'') _ w)
    as [[out_path|e] w1] eqn:Ec; cbn [fst snd];
    repeat split; congruence.
Qed.

(** X17 (white space around a field). White space typed or pasted before
    or after any of the four fields changes nothing: the action shows the
    same dialog and leaves the same file system. *)
Theorem create_pdf_ignores_padding {F : Type} `{PyFloat F} (L : Platform F)
    (app app' : App) (w : world L) :
  padded (src_pdf app) (src_pdf app') ->
  padded (txt_file app) (txt_file app') ->
  padded (out_dir_var app) (out_dir_var app') ->
  padded (label_var app) (label_var app') ->
  create_pdf L app' w = create_pdf L app w.
Proof.
  intros Hs Ht Ho Hl. unfold create_pdf.
  rewrite (strip_padded _ _ Hs), (strip_padded _ _ Ht),
    (strip_padded _ _ Ho), (strip_padded _ _ Hl).
  reflexivity.
Qed.

Lemma create_pdf_ignores_padding_witness :
  let L := @sim _ binary64 false in
  let app := {| src_pdf := lit "/in/bc.pdf"; txt_file := lit "/in/top.txt";
                out_dir_var := []; label_var := lit "Lot 42" |} in
  let app' := {| src_pdf := lit " /in/bc.pdf";
                 txt_file := lit "/in/top.txt  ";
                 out_dir_var := lit " "; label_var := lit " Lot 42 " |} in
  create_pdf L app' (lot42_world false)
  = create_pdf L app (lot42_world false).
Proof.
  intros L app app'.
  apply (create_pdf_ignores_padding L app app' (lot42_world false)).
  - exists (lit " "), []. repeat split; repeat constructor.
  - exists [], (lit "  "). repeat split; repeat constructor.
  - exists (lit " "), []. repeat split; repeat constructor.
  - exists (lit " "), (lit " "). repeat split; repeat constructor.
Defined.

(** X18 (the action touches the output path only). Whatever the fields
    and the file system, [create_pdf] creates and removes no directory and
    leaves every file other than the one at the output path of the
    stripped fields as it was. *)
Theorem create_pdf_changes_output_path_only {F : Type} `{PyFloat F}
    (L : Platform F) (app : App) (w : world L) :
  let out_path :=
    output_path L (strip (src_pdf app)) (strip (label_var app))
      (match strip (out_dir_var app) with [] => None | d => Some d end) in
  let w' := snd (create_pdf L app w) in
  dirs w' = dirs w
  /\ forall p, p <> out_path -> files w' !! p = files w !! p.
Proof.
  cbv zeta. unfold create_pdf.
  repeat match goal with
  | |- context [if ?b then (_, w) else _] =>
      destruct b; [cbn [snd]; split; reflexivity |]
  end.
  assert ((if is_empty (strip (out_dir_var app)) then None
           else Some (strip (out_dir_var app)))
          = match strip (out_dir_var app) with
            | [] => None
            | d :: ds => Some (d :: ds)
            end) as -> by (destruct (strip (out_dir_var app)); reflexivity).
  destruct (compose_final_pdf L _ _ _ _ w) as [r w1] eqn:Ec.
  apply compose_final_pdf_frame in Ec.
  destruct r; cbn [snd]; exact Ec.
Qed.

(** X19 (the pickers). A cancelled dialog changes no field. A choice
    changes its own field only, so picks of different fields commute, and
    of two picks of the same field the later choice stays. *)
Theorem pickers_independent (a b : str) (app : App) :
  pick_pdf [] app = app /\ pick_txt [] app = app /\ pick_out_dir [] app = app
  /\ pick_pdf a (pick_txt b app) = pick_txt b (pick_pdf a app)
  /\ pick_pdf a (pick_out_dir b app) = pick_out_dir b (pick_pdf a app)
  /\ pick_txt a (pick_out_dir b app) = pick_out_dir b (pick_txt a app)
  /\ (a <> [] ->
      pick_pdf a (pick_pdf b app) = pick_pdf a app
      /\ pick_txt a (pick_txt b app) = pick_txt a app
      /\ pick_out_dir a (pick_out_dir b app) = pick_out_dir a app)
  /\ label_var (pick_pdf a (pick_txt b (pick_out_dir a app)))
     = label_var app.
Proof.
  unfold pick_pdf, pick_txt, pick_out_dir.
  destruct a, b, app; cbn; repeat split; intros; congruence.
Qed.

(** X20 (the full-screen keys). After any sequence of F11 and Escape, from
    any state: if Escape was pressed, the window is full screen exactly
    when F11 was pressed an odd number of times since the last Escape; if
    not, the state is the initial one flipped once per F11. *)
Theorem fullscreen_after_keys (before after : list key) (fullscreen : bool) :
  Forall (fun k => k = F11) after ->
  fold_left press (before ++ Escape :: after) fullscreen
  = Nat.odd (length after)
  /\ fold_left press after fullscreen
     = xorb fullscreen (Nat.odd (length after)).
Proof.
  intros Hafter.
  assert (forall fs, fold_left press after fs
                     = xorb fs (Nat.odd (length after))) as Hrun.
  { induction Hafter as [|k ks -> _ IH]; intros fs.
    - simpl. destruct fs; reflexivity.
    - cbn [fold_left press toggle_fullscreen length]. rewrite IH.
      rewrite Nat.odd_succ, <- Nat.negb_odd.
      destruct fs, (Nat.odd (length ks)); reflexivity. }
  split; [| apply Hrun].
  rewrite fold_left_app. cbn [fold_left press exit_fullscreen].
  rewrite Hrun. reflexivity.
Qed.

Lemma fullscreen_after_keys_witness :
  fold_left press ([F11; F11; F11] ++ Escape :: [F11]) false
  = Nat.odd (length [F11])
  /\ fold_left press [F11] false = xorb false (Nat.odd (length [F11])).
Proof.
  apply (fullscreen_after_keys [F11; F11; F11] [F11] false).
  repeat constructor.
Defined.

(* ===================================================================== *)
(** ** The end of the text *)
(* ===================================================================== *)

Section FinalNewline.

Lemma LF_linebreak : is_linebreak LF = true.
Proof. reflexivity. Qed.

(** One line feed after a text that does not end in a line boundary
    closes its last line and opens no new one. *)
Lemma splitlines_from_final_LF (t cur : str) (after_cr : bool) :
  (forall c, last t = Some c -> is_linebreak c = false) ->
  (t = [] -> after_cr = false /\ cur <> []) ->
  splitlines_from cur after_cr (t ++ [LF]) = splitlines_from cur after_cr t.
Proof.
  revert cur after_cr.
  induction t as [|c t IH]; intros cur after_cr Hlast Hnil.
  - destruct (Hnil eq_refl) as [-> Hcur]. simpl.
    destruct cur; [contradiction | reflexivity].
  - assert (forall d, last t = Some d -> is_linebreak d = false) as Hlast'.
    { intros d Hd. apply Hlast. destruct t; [discriminate | exact Hd]. }
    assert (t = [] -> is_linebreak c = false) as Hc.
    { intros ->. apply Hlast. reflexivity. }
    cbn [app splitlines_from].
    destruct ((c =? LF)%N && after_cr) eqn:E1.
    + apply IH; [exact Hlast' |]. intros Ht. specialize (Hc Ht).
      apply andb_true_iff in E1 as [E1 _]. apply N.eqb_eq in E1.
      subst c. discriminate.
    + destruct (is_linebreak c) eqn:E2.
      * f_equal. apply IH; [exact Hlast' |]. intros Ht.
        specialize (Hc Ht). discriminate.
      * apply IH; [exact Hlast' |]. intros _. split; [reflexivity |].
        discriminate.
Qed.

End FinalNewline.

(** X21 (a final newline costs no line). For a text that is not empty and
    does not end in a line boundary, one line feed appended gives the same
    wrapped lines, hence the same page: the newline that ends a text file
    takes no line. A text that is only a line feed gives the same wrapped
    lines as the empty text. *)
Theorem wrapped_lines_final_newline {F : Type} `{PyFloat F}
    (L : Platform F) (top_text : str) :
  top_text <> [] ->
  (forall c, last top_text = Some c -> is_linebreak c = false) ->
  wrapped_lines L (top_text ++ [LF]) = wrapped_lines L top_text
  /\ wrapped_lines L [LF] = wrapped_lines L [].
Proof.
  intros Hne Hlast. split; [| reflexivity].
  unfold wrapped_lines, splitlines.
  destruct top_text as [|c t]; [contradiction |].
  cbn [app splitlines_from].
  assert (forall d, last t = Some d -> is_linebreak d = false) as Hlast'.
  { intros d Hd. apply Hlast. destruct t; [discriminate | exact Hd]. }
  assert (t = [] -> is_linebreak c = false) as Hc.
  { intros ->. apply Hlast. reflexivity. }
  rewrite andb_false_r.
  destruct (is_linebreak c) eqn:E.
  - destruct t as [|d t]; [specialize (Hc eq_refl); discriminate |].
    rewrite (splitlines_from_final_LF (d :: t) [] (c =? CR)%N);
      [reflexivity | exact Hlast' | discriminate].
  - rewrite (splitlines_from_final_LF t [c] false);
      [reflexivity | exact Hlast' |].
    intros _. split; [reflexivity | discriminate].
Qed.

Lemma wrapped_lines_final_newline_witness :
  let L := @sim _ binary64 false in
  wrapped_lines L (lot42_text ++ [LF]) = wrapped_lines L lot42_text
  /\ wrapped_lines L [LF] = wrapped_lines L [].
Proof.
  intros L. apply (wrapped_lines_final_newline L lot42_text).
  - discriminate.
  - intros c Hc. vm_compute in Hc. injection Hc as <-. reflexivity.
Defined.
